(** * q2-differential: model specification and data binding

    A shallow embedding of [q2_differential/_model.py]: the normalisation
    function, the label encoder wrapper [relabel], and the constructors of
    the three model classes [DiseaseSingle], [DESeq2] and [SingleDESeq2],
    followed by the properties of the binding layer.

    Conventions of the embedding:
    - a Python exception is a value of [exn]; a computation that may raise
      returns [result A];
    - a Python [dict] with string keys is a [gmap string _];
    - a numpy float is a [float64]: a real number, or one of the two
      special values that [np.log] produces outside its domain.  Rounding
      is not modelled;
    - counts are integers ([Z]); a sparse matrix reads 0 where it stores
      nothing. *)

From Stdlib Require Import Reals.
From stdpp Require Import base option list sorting gmap strings pretty.

Local Open Scope string_scope.
Local Open Scope Z_scope.

(** ** Exceptions *)

Inductive exn : Set :=
| NameError
| ValueError
| KeyError
| IndexError
| ZeroDivisionError
| TypeError
| UnknownIDError.

Inductive result (A : Type) : Type :=
| Ok (a : A)
| Raise (e : exn).
Arguments Ok {A} a.
Arguments Raise {A} e.

Global Instance result_ret : MRet result := λ A a, Ok a.
Global Instance result_bind : MBind result := λ A B f m,
  match m with
  | Ok a => f a
  | Raise e => Raise e
  end.

Definition raises {A} (m : result A) : Prop := ∃ e, m = Raise e.

(** ** The label encoder (sklearn's [LabelEncoder], as [relabel] uses it) *)

(** Insertion into a strictly increasing list of labels.  Python and numpy
    compare strings by code point, which is the byte order of [String.compare]. *)
Fixpoint insert_unique (s : string) (l : list string) : list string :=
  match l with
  | [] => [s]
  | h :: t =>
      match String.compare s h with
      | Lt => s :: l
      | Eq => l
      | Gt => h :: insert_unique s t
      end
  end.

(** [np.unique]: the distinct values, sorted. *)
Definition np_unique (x : list string) : list string :=
  foldr insert_unique [] x.

Fixpoint index_of (s : string) (l : list string) : option nat :=
  match l with
  | [] => None
  | h :: t => if decide (s = h) then Some 0%nat else S <$> index_of s t
  end.

Record LabelEncoder : Set := { classes_ : list string }.

(** [encoder.fit(x)] *)
Definition fit (x : list string) : LabelEncoder :=
  {| classes_ := np_unique x |}.

(** [encoder.transform(y)]: the position of every label among the classes;
    a label that was not fitted raises [ValueError]. *)
Definition transform1 (encoder : LabelEncoder) (l : string) : result Z :=
  match index_of l (classes_ encoder) with
  | Some i => Ok (Z.of_nat i)
  | None => Raise ValueError
  end.

Definition transform (encoder : LabelEncoder) (y : list string) : result (list Z) :=
  mapM (transform1 encoder) y.

(** [relabel(x)] *)
Definition relabel (x : list string) : result (list Z * LabelEncoder) :=
  let encoder := fit x in
  ids ← transform encoder x;
  mret (ids, encoder).

(** ** numpy floats *)

Inductive float64 : Type :=
| f_nan
| f_neg_inf
| f_real (r : R).

(** [np.log] of a count total.  Outside the domain numpy warns and returns
    a special value; it does not raise. *)
Definition np_log (x : Z) : float64 :=
  if decide (x = 0) then f_neg_inf
  else if decide (x < 0) then f_nan
  else f_real (ln (IZR x)).

(** [np.log(1. / n)] for a length [n]: the Python division raises on 0. *)
Definition np_log_inverse (n : nat) : result float64 :=
  if decide (n = 0%nat) then Raise ZeroDivisionError
  else Ok (f_real (ln (1 / INR n))).

(** ** The count table ([biom.Table]) *)

Record Table : Set := {
  observation_ids : list string;
  sample_ids : list string;
  (** sparse, one row per observation, one column per sample *)
  matrix_data : list (list Z)
}.

(** [table.ids()], whose default axis is the sample axis *)
Definition ids (table : Table) : list string := sample_ids table.

Definition entry (row : list Z) (j : nat) : Z := default 0 (row !! j).

(** [table.matrix_data.todense().T]: one row per sample *)
Definition todense_T (table : Table) : list (list Z) :=
  (λ j, (λ row, entry row j) <$> matrix_data table)
    <$> seq 0 (length (sample_ids table)).

(** [table.sum(axis='sample')]: the total count of every sample *)
Definition sum_sample (table : Table) : list Z :=
  foldr Z.add 0 <$> todense_T table.

(** [_normalization_func(table, norm)].  In the branch of ["median_ratios"]
    the second statement reads the name [counts], which no scope binds. *)
Definition _normalization_func (table : Table) (norm : string)
  : result (list float64) :=
  if decide (norm = "median_ratios") then
    let K : list (list R) :=
      (λ row : list Z, (λ c, (IZR c + 0.5)%R) <$> row) <$> todense_T table in
    Raise NameError
  else if decide (norm = "depth") then
    Ok (np_log <$> sum_sample table)
  else
    Raise ValueError.

(** ** Sample metadata ([pd.DataFrame]) *)

Record DataFrame : Set := {
  df_columns : list string;
  (** one row per sample: its index label and its cells in column order *)
  df_rows : list (string * list string)
}.

(** [len(metadata)] *)
Definition df_len (df : DataFrame) : nat := length (df_rows df).

(** [metadata[column]]: the values of a column, in row order *)
Definition df_getitem (df : DataFrame) (column : string) : result (list string) :=
  match index_of column (df_columns df) with
  | Some j => Ok ((λ row, default "" (row.2 !! j)) <$> df_rows df)
  | None => Raise KeyError
  end.

(** The rows selected by one label of [.loc]; a label without a row raises. *)
Definition loc1 (df : DataFrame) (k : string) : result (list (string * list string)) :=
  match filter (λ row, row.1 = k) (df_rows df) with
  | [] => Raise KeyError
  | rows => Ok rows
  end.

(** [metadata.loc[keys]] *)
Definition df_loc (df : DataFrame) (keys : list string) : result DataFrame :=
  rows ← mapM (loc1 df) keys;
  mret {| df_columns := df_columns df; df_rows := concat rows |}.

(** ** Model objects

    The base classes [TableModel] and [SingleFeatureModel] belong to the
    [birdman] package.  Of them the embedding keeps what the constructors
    below read or call: the sample names, the feature names of a table
    model, the data dictionary filled by [add_parameters], and the
    specification stored by [specify_model].  The field [dat] holds the
    entries that the constructors of this module add; the counts that the
    base classes store on their own are left out. *)

Inductive pyval : Type :=
| PInt (z : Z)
| PFloat (f : float64)
| PIntArray (a : list Z)
| PFloatArray (a : list float64).

(** A coordinate label: a string, or an integer where the code puts one. *)
Inductive label : Set :=
| LStr (s : string)
| LInt (z : Z).

Record ModelSpec : Type := {
  params : list string;
  dims : gmap string (list string);
  coords : gmap string (list label);
  include_observed_data : bool;
  posterior_predictive : string;
  log_likelihood : string
}.

Record Model : Type := {
  sample_names : list string;
  feature_names : list string;
  dat : gmap string pyval;
  spec : option ModelSpec
}.

Definition TableModel_init (table : Table) : Model :=
  {| sample_names := ids table;
     feature_names := observation_ids table;
     dat := ∅;
     spec := None |}.

(** A single-feature model reads the row of its feature from the table. *)
Definition SingleFeatureModel_init (table : Table) (feature_id : string)
  : result Model :=
  if decide (feature_id ∈ observation_ids table) then
    Ok {| sample_names := ids table;
          feature_names := [];
          dat := ∅;
          spec := None |}
  else Raise UnknownIDError.

(** [self.add_parameters(param_dict)]: a [dict.update] *)
Definition add_parameters (self : Model) (param_dict : gmap string pyval) : Model :=
  {| sample_names := sample_names self;
     feature_names := feature_names self;
     dat := param_dict ∪ dat self;
     spec := spec self |}.

Definition specify_model (self : Model) (s : ModelSpec) : Model :=
  {| sample_names := sample_names self;
     feature_names := feature_names self;
     dat := dat self;
     spec := Some s |}.

(** ** Small pieces of Python and numpy the constructors use *)

(** [int(a)] of a numpy array converts a one-element array only. *)
Definition int_of_array (a : list Z) : result Z :=
  match a with
  | [z] => Ok z
  | _ => Raise TypeError
  end.

(** [len(np.unique(a))] for an integer array *)
Definition np_unique_int (a : list Z) : list Z := merge_sort Z.le (remove_dups a).

(** [l[0]] *)
Definition first {A} (l : list A) : result A :=
  match l with
  | x :: _ => Ok x
  | [] => Raise IndexError
  end.

(** The order in which CPython iterates a set of strings depends on the
    string hash seed of the process; it is a parameter of the two-group
    constructors. *)
Definition set_order : Type := gset string → list string.

Definition set_order_ok (order : set_order) : Prop :=
  ∀ s, order s ≡ₚ elements s.

(** [{reference}], whose member is a label or [None] *)
Definition singleton_of (reference : option string) : gset string :=
  match reference with
  | Some r => {[ r ]}
  | None => ∅
  end.

(** A set of small non-negative integers is iterated in increasing order:
    an integer is its own hash. *)
Definition list_of_int_set (s : gset Z) : list Z := merge_sort Z.le (elements s).

(** [(cats.values != reference).astype(np.int64) + 1] *)
Definition group_codes (cats : list string) (reference : string) : list Z :=
  (λ c, Z.b2z (bool_decide (c ≠ reference)) + 1) <$> cats.

(** ** [DiseaseSingle.__init__] *)

Definition DiseaseSingle_init
    (table : Table) (feature_id : string) (metadata : DataFrame)
    (category_column match_ids_column batch_column reference : string)
    (diff_scale disp_scale : pyval) (normalization : string) : result Model :=
  self ← SingleFeatureModel_init table feature_id;
  metadata ← df_loc metadata (ids table);
  match_col ← df_getitem metadata match_ids_column;
  '(case_ids, case_encoder) ← relabel match_col;
  batch_col ← df_getitem metadata batch_column;
  '(batch_ids, batch_encoder) ← relabel batch_col;
  category_col ← df_getitem metadata category_column;
  '(disease_ids, disease_encoder) ← relabel category_col;
  let disease := classes_ disease_encoder in
  slog ← _normalization_func table normalization;
  let C := Z.of_nat (df_len metadata) `div` 2 in
  let N := Z.of_nat (df_len metadata) in
  let B := Z.of_nat (length (np_unique_int batch_ids)) in
  let D := Z.of_nat (length (np_unique_int disease_ids)) in
  control_loc ← np_log_inverse (length (observation_ids table));
  let control_scale := 3 in
  let batch_scale := 3 in
  reference_id ← transform disease_encoder [reference] ≫= int_of_array;
  let param_dict : gmap string pyval :=
    list_to_map [
      ("C", PInt C);
      ("N", PInt N);
      ("B", PInt B);
      ("D", PInt D);
      ("slog", PFloatArray slog);
      ("reference", PInt (reference_id + 1));
      ("disease_ids", PIntArray (Z.succ <$> disease_ids));
      ("cc_ids", PIntArray (Z.succ <$> case_ids));
      ("batch_ids", PIntArray (Z.succ <$> batch_ids));
      ("control_loc", PFloat control_loc);
      ("control_scale", PInt control_scale);
      ("batch_scale", PInt batch_scale);
      ("diff_scale", diff_scale);
      ("disp_scale", disp_scale)
    ] in
  let self := add_parameters self param_dict in
  mret (specify_model self
    {| params := ["a0"; "a1"; "a2"; "diff"; "disease_disp"];
       dims := list_to_map [
         ("a0", ["feature"]);
         ("a1", ["feature"]);
         ("a2", ["feature"]);
         ("diff", ["feature"; "disease_ids"]);
         ("disp_scale", ["feature"; "disease_ids"]);
         ("log_lhood", ["tbl_sample"]);
         ("y_predict", ["tbl_sample"]);
         ("y", ["tbl_sample"])
       ];
       coords := list_to_map [
         ("disease_ids", LStr <$> disease);
         ("feature", [LStr "log_fold_change"]);
         ("tbl_sample", LStr <$> sample_names self)
       ];
       include_observed_data := true;
       posterior_predictive := "y_predict";
       log_likelihood := "log_lhood" |}).

(** ** [DESeq2.__init__] *)

Definition DESeq2_init
    (order : set_order) (table : Table) (metadata : DataFrame)
    (category_column : string) (reference : option string)
    (normalization : string) : result Model :=
  let self := TableModel_init table in
  cats ← df_getitem metadata category_column;
  other ← first (order (list_to_set cats ∖ singleton_of reference));
  reference ← match reference with
              | None => first cats
              | Some r => Ok r
              end;
  let cats := group_codes cats reference in
  slog ← _normalization_func table normalization;
  control_loc ← np_log_inverse (length (observation_ids table));
  let control_scale := 5 in
  let param_dict : gmap string pyval :=
    list_to_map [
      ("slog", PFloatArray slog);
      ("M", PIntArray cats);
      ("control_loc", PFloat control_loc);
      ("control_scale", PInt control_scale)
    ] in
  let self := add_parameters self param_dict in
  mret (specify_model self
    {| params := ["intercept"; "beta"; "alpha"];
       dims := list_to_map [
         ("intercept", ["feature"]);
         ("beta", ["feature"]);
         ("alpha", ["group"; "feature"]);
         ("log_lhood", ["tbl_sample"; "feature"]);
         ("y_predict", ["tbl_sample"; "feature"])
       ];
       coords := list_to_map [
         ("groups", [LStr reference; LStr other]);
         ("features", LStr <$> feature_names self);
         ("tbl_samples", LStr <$> sample_names self)
       ];
       include_observed_data := true;
       posterior_predictive := "y_predict";
       log_likelihood := "log_lhood" |}).

(** ** [SingleDESeq2.__init__]

    The name [other] is bound twice: first from the set of labels, then,
    once [cats] holds the group codes, from the set of codes. *)

Definition SingleDESeq2_init
    (order : set_order) (table : Table) (feature_id : string)
    (metadata : DataFrame) (category_column : string)
    (reference : option string) (normalization : string) : result Model :=
  self ← SingleFeatureModel_init table feature_id;
  cats ← df_getitem metadata category_column;
  other ← first (order (list_to_set cats ∖ singleton_of reference));
  reference ← match reference with
              | None => first cats
              | Some r => Ok r
              end;
  let cats := group_codes cats reference in
  (* no code equals the string in [{reference}]: the difference removes nothing *)
  other ← first (list_of_int_set (list_to_set cats));
  slog ← _normalization_func table normalization;
  control_loc ← np_log_inverse (length (observation_ids table));
  let control_scale := 1 in
  let param_dict : gmap string pyval :=
    list_to_map [
      ("slog", PFloatArray slog);
      ("M", PIntArray cats);
      ("control_loc", PFloat control_loc);
      ("control_scale", PInt control_scale)
    ] in
  let self := add_parameters self param_dict in
  mret (specify_model self
    {| params := ["intercept"; "beta"; "alpha"];
       dims := list_to_map [
         ("intercept", ["feature"]);
         ("beta", ["feature"]);
         ("alpha", ["group"]);
         ("log_lhood", ["tbl_sample"]);
         ("y_predict", ["tbl_sample"])
       ];
       coords := list_to_map [
         ("groups", [LStr reference; LInt other]);
         ("features", [LStr ("log(" +:+ pretty other +:+ " / " +:+ reference +:+ ")")]);
         ("tbl_samples", LStr <$> sample_names self)
       ];
       include_observed_data := true;
       posterior_predictive := "y_predict";
       log_likelihood := "log_lhood" |}).

(** ** [_swap] *)

(** [new_vec[mask] = v]: assignment through a boolean mask *)
Definition mask_assign (vec : list Z) (mask : list bool) (v : Z) : list Z :=
  zip_with (λ a (b : bool), if b then v else a) vec mask.

(** [_swap(vec, x, y)]: both masks are taken from [vec] before the copy is
    written. *)
Definition _swap (vec : list Z) (x y : Z) : list Z :=
  let idx := (λ v, bool_decide (v = x)) <$> vec in
  let idy := (λ v, bool_decide (v = y)) <$> vec in
  let new_vec := vec in
  let new_vec := mask_assign new_vec idx y in
  let new_vec := mask_assign new_vec idy x in
  new_vec.

(** ** Notions used in the statements *)

(** The total count of the sample in column [j]. *)
Definition sample_total (table : Table) (j : nat) : Z :=
  foldr Z.add 0 ((λ row, entry row j) <$> matrix_data table).

(** The index labels of a frame, in row order. *)
Definition df_index (df : DataFrame) : list string := fst <$> df_rows df.

(** The reference label the two-group constructors work with: the supplied
    one, or the category of the first metadata row. *)
Definition resolves_to (reference : option string) (cats : list string)
    (r : string) : Prop :=
  match reference with
  | Some r' => r = r'
  | None => head cats = Some r
  end.

(** [x] is the least element of [a]. *)
Definition is_minimum (a : list Z) (x : Z) : Prop :=
  x ∈ a ∧ ∀ y, y ∈ a → x ≤ y.

(** The claim of C1 about one array of the data dictionary: it holds the
    encoder's ids of the column, each shifted by one. *)
Definition shifted_encoder_ids (column : list string) (a : pyval) : Prop :=
  ∃ ids encoder,
    relabel column = Ok (ids, encoder) ∧ a = PIntArray (Z.succ <$> ids).

(** ** Fixtures *)

(** The table of the depth scenario: two features, two samples, totals 10 and 10. *)
Definition diagonal_table : Table :=
  {| observation_ids := ["f1"; "f2"];
     sample_ids := ["s1"; "s2"];
     matrix_data := [[10; 0]; [0; 10]] |}.

(** A table whose first sample has no counts. *)
Definition zero_depth_table : Table :=
  {| observation_ids := ["f1"; "f2"];
     sample_ids := ["s1"; "s2"];
     matrix_data := [[0; 10]; [0; 5]] |}.

(** A matched pair of samples. *)
Definition case_control_metadata : DataFrame :=
  {| df_columns := ["Status"; "match_ids_column"; "batch_column"];
     df_rows := [("s1", ["Healthy"; "pair1"; "study1"]);
                 ("s2", ["Sick"; "pair1"; "study1"])] |}.

(** The same rows, listed in the opposite order. *)
Definition reversed_metadata : DataFrame :=
  {| df_columns := ["Status"; "match_ids_column"; "batch_column"];
     df_rows := [("s2", ["Sick"; "pair1"; "study1"]);
                 ("s1", ["Healthy"; "pair1"; "study1"])] |}.

(** Metadata that knows [s1] and a sample [s9], but not [s2]. *)
Definition foreign_metadata : DataFrame :=
  {| df_columns := ["Status"; "match_ids_column"; "batch_column"];
     df_rows := [("s1", ["Healthy"; "pair1"; "study1"]);
                 ("s9", ["Sick"; "pair1"; "study1"])] |}.

(** Three samples in three categories. *)
Definition three_sample_table : Table :=
  {| observation_ids := ["f1"];
     sample_ids := ["s1"; "s2"; "s3"];
     matrix_data := [[4; 5; 6]] |}.

Definition three_group_metadata : DataFrame :=
  {| df_columns := ["Status"];
     df_rows := [("s1", ["Healthy"]); ("s2", ["Sick"]); ("s3", ["Worse"])] |}.

(** Two matched pairs in one batch. *)
Definition paired_table : Table :=
  {| observation_ids := ["f1"; "f2"];
     sample_ids := ["s1"; "s2"; "s3"; "s4"];
     matrix_data := [[3; 1; 4; 1]; [5; 9; 2; 6]] |}.

Definition paired_metadata : DataFrame :=
  {| df_columns := ["Status"; "match_ids_column"; "batch_column"];
     df_rows := [("s4", ["DiseaseA"; "pair2"; "study1"]);
                 ("s1", ["Healthy"; "pair1"; "study1"]);
                 ("s2", ["DiseaseA"; "pair1"; "study1"]);
                 ("s3", ["Healthy"; "pair2"; "study1"])] |}.

(** Two samples of one category. *)
Definition one_group_metadata : DataFrame :=
  {| df_columns := ["Status"];
     df_rows := [("s1", ["Healthy"]); ("s2", ["Healthy"])] |}.

(** * Properties *)

(** ** Facts about the encoder *)

Section encoder_facts.
Implicit Types (s l : string) (x cs : list string).

Lemma elem_of_insert_unique s l cs :
  l ∈ insert_unique s cs ↔ l = s ∨ l ∈ cs.
Proof.
  induction cs as [|h t IH]; simpl.
  - rewrite list_elem_of_singleton, elem_of_nil. tauto.
  - destruct (String.compare s h) eqn:E.
    + apply String.compare_eq_iff in E. subst h.
      rewrite elem_of_cons. tauto.
    + rewrite elem_of_cons. tauto.
    + rewrite !elem_of_cons, IH. tauto.
Qed.

Lemma elem_of_np_unique l x : l ∈ np_unique x ↔ l ∈ x.
Proof.
  induction x as [|h t IH]; simpl; [done|].
  rewrite elem_of_insert_unique, IH, elem_of_cons. tauto.
Qed.

Lemma insert_unique_HdRel s h cs :
  String.le h s → HdRel String.le h cs → HdRel String.le h (insert_unique s cs).
Proof.
  intros Hs Hcs. destruct cs as [|c cs]; simpl; [by constructor|].
  destruct (String.compare s c); [done|by constructor|].
  inversion_clear Hcs. by constructor.
Qed.

Lemma insert_unique_sorted s cs :
  Sorted String.le cs → Sorted String.le (insert_unique s cs).
Proof.
  induction cs as [|h t IH]; simpl; intros Hcs.
  - by repeat constructor.
  - destruct (String.compare s h) eqn:E; [done| |].
    + constructor; [done|]. constructor.
      unfold String.le, String.leb. by rewrite E.
    + inversion_clear Hcs as [|? ? Ht Hh]. constructor; [by apply IH|].
      apply insert_unique_HdRel; [|done].
      unfold String.le, String.leb.
      by rewrite String.compare_antisym, E.
Qed.

(** The classes of a fitted encoder are in increasing order. *)
Lemma np_unique_sorted x : Sorted String.le (np_unique x).
Proof.
  induction x as [|h t IH]; simpl; [constructor|].
  by apply insert_unique_sorted.
Qed.

Lemma index_of_lookup l cs i : index_of l cs = Some i → cs !! i = Some l.
Proof.
  revert i. induction cs as [|h t IH]; intros i; simpl; [done|].
  case_decide as E.
  - intros [= <-]. by subst.
  - destruct (index_of l t) as [j|]; simpl; [|done].
    intros [= <-]. by apply IH.
Qed.

Lemma index_of_elem l cs : l ∈ cs → is_Some (index_of l cs).
Proof.
  induction 1 as [|h k t _ IH]; simpl.
  - rewrite decide_True by done. eauto.
  - case_decide; [eauto|]. destruct IH as [j ->]. simpl. eauto.
Qed.

Lemma index_of_None l cs : l ∉ cs → index_of l cs = None.
Proof.
  intros Hl. destruct (index_of l cs) as [i|] eqn:E; [|done].
  apply index_of_lookup in E. destruct Hl. by eapply list_elem_of_lookup_2.
Qed.

Lemma transform_cons encoder l y :
  transform encoder (l :: y) =
    k ← transform1 encoder l; ids ← transform encoder y; mret (k :: ids).
Proof. reflexivity. Qed.

Lemma transform_fitted encoder y :
  (∀ l, l ∈ y → l ∈ classes_ encoder) →
  ∃ ids, transform encoder y = Ok ids
         ∧ length ids = length y
         ∧ ∀ i l, y !! i = Some l →
             ∃ k, ids !! i = Some (Z.of_nat k)
                  ∧ index_of l (classes_ encoder) = Some k.
Proof.
  induction y as [|h t IH]; intros Hin.
  - exists []. by split_and!.
  - destruct IH as (ids & Ht & Hlen & Hrt).
    { intros l Hl. apply Hin. by right. }
    destruct (index_of_elem h (classes_ encoder)) as [k Hk].
    { apply Hin. by left. }
    exists (Z.of_nat k :: ids).
    rewrite transform_cons, Ht. unfold transform1. rewrite Hk.
    split_and!; [done|by simpl; rewrite Hlen|].
    intros [|i] l; simpl.
    + intros [= <-]. by exists k.
    + apply Hrt.
Qed.

Lemma transform_unseen encoder l :
  l ∉ classes_ encoder → transform encoder [l] = Raise ValueError.
Proof.
  intros Hl. rewrite transform_cons. unfold transform1.
  by rewrite index_of_None.
Qed.

Lemma transform_singleton encoder l ids :
  transform encoder [l] = Ok ids →
  ∃ k, ids = [Z.of_nat k] ∧ index_of l (classes_ encoder) = Some k.
Proof.
  rewrite transform_cons. unfold transform1.
  destruct (index_of l (classes_ encoder)) as [k|]; [|done].
  intros [= <-]. by exists k.
Qed.

Lemma relabel_spec x :
  ∃ ids, relabel x = Ok (ids, fit x)
         ∧ length ids = length x
         ∧ ∀ i l, x !! i = Some l →
             ∃ k, ids !! i = Some (Z.of_nat k)
                  ∧ index_of l (np_unique x) = Some k.
Proof.
  destruct (transform_fitted (fit x) x) as (ids & Ht & Hlen & Hrt).
  { intros l. simpl. by rewrite elem_of_np_unique. }
  exists ids. unfold relabel. rewrite Ht. by split_and!.
Qed.

Lemma relabel_Ok x ids encoder :
  relabel x = Ok (ids, encoder) →
  encoder = fit x
  ∧ length ids = length x
  ∧ ∀ i l, x !! i = Some l →
      ∃ k, ids !! i = Some (Z.of_nat k)
           ∧ index_of l (np_unique x) = Some k.
Proof.
  destruct (relabel_spec x) as (ids' & Hr & Hlen & Hrt).
  rewrite Hr. by intros [= <- <-].
Qed.

(** The ids of a non-empty sequence are non-negative and include 0. *)
Lemma relabel_ids_from_0 x ids encoder :
  relabel x = Ok (ids, encoder) →
  x ≠ [] →
  0 ∈ ids ∧ ∀ k, k ∈ ids → 0 ≤ k.
Proof.
  intros (-> & Hlen & Hrt)%relabel_Ok Hx. split.
  - destruct (np_unique x) as [|c0 cs] eqn:Hu.
    { destruct x as [|h t]; [done|].
      assert (h ∈ np_unique (h :: t)) as Hh
        by (apply elem_of_np_unique; by left).
      rewrite Hu in Hh. by apply elem_of_nil in Hh. }
    assert (c0 ∈ x) as (i & Hi)%list_elem_of_lookup.
    { apply elem_of_np_unique. rewrite Hu. by left. }
    destruct (Hrt i c0 Hi) as (k & Hk & Hidx).
    simpl in Hidx. rewrite decide_True in Hidx by done.
    injection Hidx as <-. by eapply list_elem_of_lookup_2.
  - intros k (i & Hi)%list_elem_of_lookup.
    assert (i < length x)%nat as (l & Hl)%lookup_lt_is_Some.
    { rewrite <- Hlen. by eapply lookup_lt_Some. }
    destruct (Hrt i l Hl) as (k' & Hk' & _).
    rewrite Hi in Hk'. injection Hk' as ->. lia.
Qed.
End encoder_facts.

(** C7. For every finite label sequence [x], [relabel] returns ids and an
    encoder such that [classes_[ids[i]] = x[i]] at every position [i], and a
    second encoding of the identical sequence returns the same ids and the
    same classes. *)
Theorem relabel_roundtrip_deterministic (x : list string) :
  ∃ ids encoder,
    relabel x = Ok (ids, encoder)
    ∧ length ids = length x
    ∧ (∀ i l, x !! i = Some l →
         ∃ k, ids !! i = Some k ∧ 0 ≤ k ∧ classes_ encoder !! Z.to_nat k = Some l)
    ∧ (∀ x', x' = x →
         ∃ ids' encoder', relabel x' = Ok (ids', encoder')
                          ∧ ids' = ids ∧ classes_ encoder' = classes_ encoder).
Proof.
  destruct (relabel_spec x) as (ids & Hr & Hlen & Hrt).
  exists ids, (fit x). split_and!; [done|done| |].
  - intros i l Hl. destruct (Hrt i l Hl) as (k & Hk & Hc).
    exists (Z.of_nat k). rewrite Nat2Z.id.
    split_and!; [done|lia|by apply index_of_lookup].
  - intros x' ->. by exists ids, (fit x).
Qed.

(** ** Reasoning about computations that may raise *)

Lemma bind_Ok_inv {A B} (m : result A) (f : A → result B) (b : B) :
  m ≫= f = Ok b → ∃ a, m = Ok a ∧ f a = Ok b.
Proof. destruct m as [a|e]; [eauto | discriminate]. Qed.

Lemma bind_Ok {A B} (m : result A) (f : A → result B) (a : A) :
  m = Ok a → m ≫= f = f a.
Proof. by intros ->. Qed.

Lemma bind_Raise {A B} (m : result A) (f : A → result B) (e : exn) :
  m = Raise e → m ≫= f = Raise e.
Proof. by intros ->. Qed.

(** ** Normalisation *)

Lemma sum_sample_lookup table j :
  (j < length (ids table))%nat →
  sum_sample table !! j = Some (sample_total table j).
Proof.
  intros Hj. unfold sum_sample, todense_T.
  rewrite !list_lookup_fmap, lookup_seq_lt by done. done.
Qed.

Lemma sum_sample_length table : length (sum_sample table) = length (ids table).
Proof. unfold sum_sample, todense_T. by rewrite !length_fmap, length_seq. Qed.

Lemma np_log_pos x : 0 < x → np_log x = f_real (ln (IZR x)).
Proof.
  intros Hx. unfold np_log.
  rewrite decide_False by lia. by rewrite decide_False by lia.
Qed.

Lemma normalization_depth table :
  _normalization_func table "depth" = Ok (np_log <$> sum_sample table).
Proof. reflexivity. Qed.

(** C3. On every table the mode ["median_ratios"] raises [NameError]
    instead of the median-of-ratios offsets: the name [counts] is unbound. *)
Theorem median_ratios_raises_NameError (table : Table) :
  _normalization_func table "median_ratios" = Raise NameError.
Proof. reflexivity. Qed.

(** C4, as stated, fails: a sample whose total count is zero does not make
    the mode ["depth"] raise; its offset is minus infinity. *)
Lemma depth_zero_total_returns :
  sample_total zero_depth_table 0 = 0
  ∧ _normalization_func zero_depth_table "depth"
    = Ok [f_neg_inf; f_real (ln (IZR 15))]
  ∧ ¬ raises (_normalization_func zero_depth_table "depth").
Proof.
  split_and!; [done|by vm_compute|].
  intros [e He]. vm_compute in He. discriminate He.
Qed.

(** C4, amended. In mode ["depth"] the function returns one offset per
    sample, in table sample order: the natural logarithm of the sample's
    total count when that total is positive, and minus infinity when it is
    zero.  When every sample totals the same positive [T], every offset is
    [log T]. *)
Theorem depth_log_offsets (table : Table) :
  ∃ slog,
    _normalization_func table "depth" = Ok slog
    ∧ length slog = length (ids table)
    ∧ (∀ j, (j < length (ids table))%nat →
         (0 < sample_total table j →
            slog !! j = Some (f_real (ln (IZR (sample_total table j)))))
         ∧ (sample_total table j = 0 → slog !! j = Some f_neg_inf))
    ∧ (∀ T, 0 < T →
         (∀ j, (j < length (ids table))%nat → sample_total table j = T) →
         ∀ x, x ∈ slog → x = f_real (ln (IZR T))).
Proof.
  exists (np_log <$> sum_sample table). split_and!.
  - reflexivity.
  - by rewrite length_fmap, sum_sample_length.
  - intros j Hj. rewrite list_lookup_fmap, sum_sample_lookup by done.
    split; intros Ht; simpl.
    + by rewrite np_log_pos.
    + by rewrite Ht.
  - intros T HT Hall x Hx.
    apply list_elem_of_fmap in Hx as (total & -> & Hin).
    apply list_elem_of_lookup in Hin as (j & Hj).
    assert (j < length (ids table))%nat as Hlt.
    { rewrite <- sum_sample_length. by eapply lookup_lt_Some. }
    rewrite sum_sample_lookup in Hj by done.
    injection Hj as <-. rewrite Hall by done. by apply np_log_pos.
Qed.

Lemma depth_log_offsets_witness :
  ∃ slog,
    _normalization_func diagonal_table "depth" = Ok slog
    ∧ ∀ x, x ∈ slog → x = f_real (ln (IZR 10)).
Proof.
  destruct (depth_log_offsets diagonal_table) as (slog & Hs & _ & _ & Hall).
  exists slog. split; [exact Hs|].
  apply Hall; [lia|].
  intros [|[|j]] Hj; [reflexivity|reflexivity|].
  simpl in Hj. lia.
Defined.

(** ** Metadata columns *)

Lemma df_getitem_length df column cats :
  df_getitem df column = Ok cats → length cats = df_len df.
Proof.
  unfold df_getitem, df_len. destruct (index_of _ _); [|done].
  intros [= <-]. by rewrite length_fmap.
Qed.

(** ** The two-group constructors *)

Lemma resolve_reference reference cats r :
  match reference with None => first cats | Some r' => Ok r' end = Ok r →
  resolves_to reference cats r.
Proof.
  destruct reference as [r'|]; simpl; [by intros [= ->]|].
  destruct cats; simpl; [done|]. by intros [= ->].
Qed.

Lemma group_codes_length cats r : length (group_codes cats r) = length cats.
Proof. unfold group_codes. by rewrite length_fmap. Qed.

Lemma group_codes_lookup cats r i c :
  cats !! i = Some c →
  group_codes cats r !! i = Some (if decide (c = r) then 1 else 2).
Proof.
  intros Hc. unfold group_codes. rewrite list_lookup_fmap, Hc. simpl.
  case_decide.
  - by rewrite bool_decide_eq_false_2 by naive_solver.
  - by rewrite bool_decide_eq_true_2.
Qed.

Lemma SingleFeatureModel_init_Ok table feature_id self :
  SingleFeatureModel_init table feature_id = Ok self →
  feature_id ∈ observation_ids table
  ∧ self = {| sample_names := ids table; feature_names := [];
              dat := ∅; spec := None |}.
Proof.
  unfold SingleFeatureModel_init. case_decide; [|done]. by intros [= <-].
Qed.

Lemma DESeq2_init_Ok order table metadata category_column reference normalization m :
  DESeq2_init order table metadata category_column reference normalization = Ok m →
  ∃ cats other r slog control_loc,
    df_getitem metadata category_column = Ok cats
    ∧ first (order (list_to_set cats ∖ singleton_of reference)) = Ok other
    ∧ resolves_to reference cats r
    ∧ _normalization_func table normalization = Ok slog
    ∧ np_log_inverse (length (observation_ids table)) = Ok control_loc
    ∧ dat m !! "M" = Some (PIntArray (group_codes cats r))
    ∧ dat m !! "slog" = Some (PFloatArray slog)
    ∧ dat m !! "reference" = None
    ∧ ∃ s, spec m = Some s
           ∧ coords s !! "groups" = Some [LStr r; LStr other]
           ∧ coords s !! "features" = Some (LStr <$> observation_ids table).
Proof.
  intros H. unfold DESeq2_init in H. cbv zeta in H.
  apply bind_Ok_inv in H as (cats & Hcats & H).
  apply bind_Ok_inv in H as (other & Hother & H).
  apply bind_Ok_inv in H as (r & Hr & H).
  apply bind_Ok_inv in H as (slog & Hslog & H).
  apply bind_Ok_inv in H as (control_loc & Hcl & H).
  injection H as <-.
  exists cats, other, r, slog, control_loc.
  split_and!; try done; [by apply resolve_reference|].
  eexists. by split_and!.
Qed.

Lemma SingleDESeq2_init_Ok
    order table feature_id metadata category_column reference normalization m :
  SingleDESeq2_init order table feature_id metadata category_column
    reference normalization = Ok m →
  ∃ cats other r code slog,
    df_getitem metadata category_column = Ok cats
    ∧ first (order (list_to_set cats ∖ singleton_of reference)) = Ok other
    ∧ resolves_to reference cats r
    ∧ first (list_of_int_set (list_to_set (group_codes cats r))) = Ok code
    ∧ _normalization_func table normalization = Ok slog
    ∧ dat m !! "M" = Some (PIntArray (group_codes cats r))
    ∧ dat m !! "reference" = None
    ∧ ∃ s, spec m = Some s
           ∧ coords s !! "groups" = Some [LStr r; LInt code]
           ∧ coords s !! "features"
             = Some [LStr ("log(" +:+ pretty code +:+ " / " +:+ r +:+ ")")].
Proof.
  intros H. unfold SingleDESeq2_init in H. cbv zeta in H.
  apply bind_Ok_inv in H as (self & Hself & H).
  apply bind_Ok_inv in H as (cats & Hcats & H).
  apply bind_Ok_inv in H as (other & Hother & H).
  apply bind_Ok_inv in H as (r & Hr & H).
  apply bind_Ok_inv in H as (code & Hcode & H).
  apply bind_Ok_inv in H as (slog & Hslog & H).
  apply bind_Ok_inv in H as (control_loc & Hcl & H).
  apply SingleFeatureModel_init_Ok in Hself as [_ ->].
  injection H as <-.
  exists cats, other, r, code, slog.
  split_and!; try done; [by apply resolve_reference|].
  eexists. by split_and!.
Qed.

(** C10. In a binding of either two-group model the array [M] has one entry
    per metadata row; the entry of a row is 1 when the row's category is the
    resolved reference label (the supplied one, or the first row's category
    when none is supplied) and 2 otherwise. *)
Theorem two_group_codes_reference_is_1
    order table feature_id metadata category_column reference normalization m :
  DESeq2_init order table metadata category_column reference normalization = Ok m
  ∨ SingleDESeq2_init order table feature_id metadata category_column reference
      normalization = Ok m →
  ∃ cats r M,
    df_getitem metadata category_column = Ok cats
    ∧ resolves_to reference cats r
    ∧ dat m !! "M" = Some (PIntArray M)
    ∧ length M = df_len metadata
    ∧ ∀ i c, cats !! i = Some c →
        M !! i = Some (if decide (c = r) then 1 else 2).
Proof.
  intros [H|H].
  - apply DESeq2_init_Ok in H
      as (cats & other & r & slog & cl & Hc & _ & Hr & _ & _ & HM & _).
    exists cats, r, (group_codes cats r). split_and!; [done..| |].
    + rewrite group_codes_length. by eapply df_getitem_length.
    + intros i c. apply group_codes_lookup.
  - apply SingleDESeq2_init_Ok in H
      as (cats & other & r & code & slog & Hc & _ & Hr & _ & _ & HM & _).
    exists cats, r, (group_codes cats r). split_and!; [done..| |].
    + rewrite group_codes_length. by eapply df_getitem_length.
    + intros i c. apply group_codes_lookup.
Qed.

Lemma two_group_codes_reference_is_1_witness :
  ∃ m M,
    DESeq2_init elements diagonal_table case_control_metadata "Status"
      None "depth" = Ok m
    ∧ dat m !! "M" = Some (PIntArray M)
    ∧ M !! 0%nat = Some 1 ∧ M !! 1%nat = Some 2.
Proof.
  destruct (DESeq2_init elements diagonal_table case_control_metadata "Status"
              None "depth") as [m|e] eqn:E; [|by vm_compute in E].
  destruct (two_group_codes_reference_is_1 elements diagonal_table "f1"
              case_control_metadata "Status" None "depth" m (or_introl E))
    as (cats & r & M & Hc & Hr & HM & _ & Hcodes).
  vm_compute in Hc. injection Hc as <-.
  simpl in Hr. injection Hr as <-.
  exists m, M. split_and!; [done|done|..].
  - by apply (Hcodes 0%nat "Healthy").
  - by apply (Hcodes 1%nat "Sick").
Defined.

(** *** The feature label of the single-feature model *)

Lemma group_codes_elem cats r code :
  code ∈ group_codes cats r → code = 1 ∨ code = 2.
Proof.
  unfold group_codes. intros (c & -> & _)%list_elem_of_fmap.
  destruct (bool_decide (c ≠ r)); simpl; auto.
Qed.

Lemma first_elem {A} (l : list A) (x : A) : first l = Ok x → x ∈ l.
Proof. destruct l; simpl; [done|]. intros [= ->]. by left. Qed.

Lemma first_int_set_elem (codes : list Z) code :
  first (list_of_int_set (list_to_set codes)) = Ok code → code ∈ codes.
Proof.
  intros H%first_elem. unfold list_of_int_set in H.
  rewrite merge_sort_Permutation in H.
  by apply elem_of_elements, elem_of_list_to_set in H.
Qed.

(** Whatever the category labels are, the synthetic feature label of a
    bound single-feature model names a group code. *)
Lemma SingleDESeq2_feature_label
    order table feature_id metadata category_column reference normalization m :
  SingleDESeq2_init order table feature_id metadata category_column
    reference normalization = Ok m →
  ∃ s r, spec m = Some s
    ∧ resolves_to reference (match df_getitem metadata category_column with
                             | Ok cats => cats
                             | Raise _ => []
                             end) r
    ∧ (coords s !! "features" = Some [LStr ("log(1 / " +:+ r +:+ ")")]
       ∨ coords s !! "features" = Some [LStr ("log(2 / " +:+ r +:+ ")")]).
Proof.
  intros H. apply SingleDESeq2_init_Ok in H
    as (cats & other & r & code & slog & Hc & _ & Hr & Hcode & _ & _ & _
        & s & Hs & _ & Hf).
  exists s, r. rewrite Hc. split_and!; [done..|].
  apply first_int_set_elem, group_codes_elem in Hcode as [-> | ->]; auto.
Qed.

(** C9. Bound on samples labelled ["Healthy"] and ["Sick"] with reference
    ["Healthy"], the single-feature model gets the feature label
    ["log(1 / Healthy)"]: the group code 1 stands where the label of the
    other category, ["Sick"], belongs. *)
Theorem SingleDESeq2_feature_label_names_code :
  ∃ m s,
    SingleDESeq2_init elements diagonal_table "f1" case_control_metadata
      "Status" (Some "Healthy") "depth" = Ok m
    ∧ df_getitem case_control_metadata "Status" = Ok ["Healthy"; "Sick"]
    ∧ spec m = Some s
    ∧ coords s !! "features" = Some [LStr "log(1 / Healthy)"]
    ∧ coords s !! "features" ≠ Some [LStr "log(Sick / Healthy)"]
    ∧ coords s !! "groups" = Some [LStr "Healthy"; LInt 1].
Proof.
  destruct (SingleDESeq2_init elements diagonal_table "f1"
              case_control_metadata "Status" (Some "Healthy") "depth")
    as [m|e] eqn:E; [|by vm_compute in E].
  pose proof E as H. apply SingleDESeq2_init_Ok in H
    as (cats & other & r & code & slog & Hc & _ & Hr & Hcode & _ & _ & _
        & s & Hs & Hg & Hf).
  vm_compute in Hc. injection Hc as <-. simpl in Hr. subst r.
  vm_compute in Hcode. injection Hcode as <-.
  exists m, s. split_and!; [done..| |done].
  rewrite Hf. by vm_compute.
Qed.

(** *** The label of the other group in [DESeq2] *)

Lemma first_Ok_nonempty {A} (l : list A) : l ≠ [] → ∃ x, first l = Ok x.
Proof. destruct l; [done|]. eauto. Qed.

(** With a supplied reference, [list(set(cats) - {reference})[0]] is some
    observed category other than the reference, as soon as there is one. *)
Lemma other_label order cats r :
  set_order_ok order →
  (∃ c, c ∈ cats ∧ c ≠ r) →
  ∃ o, first (order (list_to_set cats ∖ singleton_of (Some r))) = Ok o
       ∧ o ∈ cats ∧ o ≠ r.
Proof.
  intros Hord (c & Hc & Hne). simpl.
  set (s := list_to_set cats ∖ {[r]} : gset string).
  assert (c ∈ order s) as Hin.
  { rewrite (Hord s). apply elem_of_elements. unfold s.
    apply elem_of_difference. split; [by apply elem_of_list_to_set|].
    by rewrite elem_of_singleton. }
  destruct (first_Ok_nonempty (order s)) as [o Ho].
  { intros Hnil. rewrite Hnil in Hin. by apply elem_of_nil in Hin. }
  exists o. split; [done|].
  apply first_elem in Ho. rewrite (Hord s) in Ho.
  apply elem_of_elements, elem_of_difference in Ho as [Ho1 Ho2].
  apply elem_of_list_to_set in Ho1. by rewrite elem_of_singleton in Ho2.
Qed.

Lemma np_log_inverse_Ok (l : list string) :
  l ≠ [] → ∃ x, np_log_inverse (length l) = Ok x.
Proof.
  intros Hl. unfold np_log_inverse. destruct l; [done|].
  rewrite decide_False by done. eauto.
Qed.

(** C5, as stated, fails: with three observed categories the binding of a
    two-group model returns. *)
Lemma DESeq2_three_categories_returns :
  df_getitem three_group_metadata "Status" = Ok ["Healthy"; "Sick"; "Worse"]
  ∧ ∃ m s,
      DESeq2_init elements three_sample_table three_group_metadata "Status"
        (Some "Healthy") "depth" = Ok m
      ∧ spec m = Some s
      ∧ coords s !! "groups" = Some [LStr "Healthy"; LStr "Worse"]
      ∧ dat m !! "M" = Some (PIntArray [1; 2; 2]).
Proof.
  split; [done|].
  destruct (DESeq2_init elements three_sample_table three_group_metadata
              "Status" (Some "Healthy") "depth") as [m|e] eqn:E;
    [|by vm_compute in E].
  pose proof E as H. apply DESeq2_init_Ok in H
    as (cats & other & r & slog & cl & Hc & Ho & Hr & _ & _ & HM & _ & _
        & s & Hs & Hg & _).
  vm_compute in Hc. injection Hc as <-. simpl in Hr. subst r.
  vm_compute in Ho. injection Ho as <-.
  exists m, s. split_and!; [done..|].
  rewrite HM. by vm_compute.
Qed.

(** C5, amended. When [DESeq2] is bound with a supplied reference label and
    some observed category differs from it, construction returns, however
    many categories are observed, and the second group label is an
    observed category other than the reference; when the observed
    categories are the reference and one more label, it is that label,
    under every iteration order of the set. *)
Theorem DESeq2_other_is_remaining_category
    order table metadata category_column r normalization cats :
  set_order_ok order →
  df_getitem metadata category_column = Ok cats →
  (∃ c, c ∈ cats ∧ c ≠ r) →
  normalization = "depth" →
  observation_ids table ≠ [] →
  ∃ m s o,
    DESeq2_init order table metadata category_column (Some r) normalization = Ok m
    ∧ spec m = Some s
    ∧ coords s !! "groups" = Some [LStr r; LStr o]
    ∧ o ∈ cats ∧ o ≠ r
    ∧ ∀ o', (∀ c, c ∈ cats → c = r ∨ c = o') → o = o'.
Proof.
  intros Hord Hc Hex -> Hobs.
  destruct (other_label order cats r Hord Hex) as (o & Ho & Hin & Hne).
  destruct (np_log_inverse_Ok _ Hobs) as [cl Hcl].
  unfold DESeq2_init. cbv zeta.
  rewrite (bind_Ok _ _ _ Hc), (bind_Ok _ _ _ Ho).
  rewrite (bind_Ok (Ok r) _ r eq_refl).
  rewrite (bind_Ok _ _ _ (normalization_depth table)), (bind_Ok _ _ _ Hcl).
  eexists _, _, o. split_and!; [reflexivity|reflexivity|reflexivity|done|done|].
  intros o' Hall. destruct (Hall o Hin) as [?|?]; [done|done].
Qed.

Lemma DESeq2_other_is_remaining_category_witness :
  ∃ m s,
    DESeq2_init elements diagonal_table case_control_metadata "Status"
      (Some "Healthy") "depth" = Ok m
    ∧ spec m = Some s
    ∧ coords s !! "groups" = Some [LStr "Healthy"; LStr "Sick"].
Proof.
  destruct (DESeq2_other_is_remaining_category elements diagonal_table
              case_control_metadata "Status" "Healthy" "depth"
              ["Healthy"; "Sick"])
    as (m & s & o & Hm & Hs & Hg & _ & _ & Huniq).
  - intros s. reflexivity.
  - reflexivity.
  - exists "Sick". split; [|discriminate]. right. left.
  - reflexivity.
  - discriminate.
  - exists m, s. split_and!; [exact Hm|exact Hs|].
    rewrite <- (Huniq "Sick"); [exact Hg|].
    intros c Hc. apply elem_of_cons in Hc as [->| Hc]; [left; reflexivity|].
    apply elem_of_cons in Hc as [->| Hc]; [right; reflexivity|].
    apply elem_of_nil in Hc. destruct Hc.
Defined.

(** Without a supplied reference the second group label is read from the
    set before the first row's category becomes the reference: it follows
    the iteration order of the set, and it can repeat the reference. *)
Example DESeq2_default_reference_groups :
  set_order_ok elements ∧ set_order_ok (reverse ∘ elements)
  ∧ (∃ m s,
       DESeq2_init elements diagonal_table reversed_metadata "Status" None
         "depth" = Ok m
       ∧ spec m = Some s
       ∧ coords s !! "groups" = Some [LStr "Sick"; LStr "Sick"])
  ∧ (∃ m s,
       DESeq2_init (reverse ∘ elements) diagonal_table reversed_metadata
         "Status" None "depth" = Ok m
       ∧ spec m = Some s
       ∧ coords s !! "groups" = Some [LStr "Sick"; LStr "Healthy"]).
Proof.
  split_and!.
  - by intros s.
  - intros s. simpl. by rewrite reverse_Permutation.
  - destruct (DESeq2_init elements diagonal_table reversed_metadata "Status"
                None "depth") as [m|e] eqn:E;
      [|vm_compute in E; discriminate E].
    pose proof E as H. apply DESeq2_init_Ok in H
      as (cats & other & r & slog & cl & Hc & Ho & Hr & _ & _ & _ & _ & _
          & s & Hs & Hg & _).
    vm_compute in Hc. injection Hc as <-.
    simpl in Hr. injection Hr as <-.
    vm_compute in Ho. injection Ho as <-.
    exists m, s. split_and!; [reflexivity|exact Hs|exact Hg].
  - destruct (DESeq2_init (reverse ∘ elements) diagonal_table
                reversed_metadata "Status" None "depth") as [m|e] eqn:E;
      [|vm_compute in E; discriminate E].
    pose proof E as H. apply DESeq2_init_Ok in H
      as (cats & other & r & slog & cl & Hc & Ho & Hr & _ & _ & _ & _ & _
          & s & Hs & Hg & _).
    vm_compute in Hc. injection Hc as <-.
    simpl in Hr. injection Hr as <-.
    vm_compute in Ho. injection Ho as <-.
    exists m, s. split_and!; [reflexivity|exact Hs|exact Hg].
Qed.

(** ** The disease model *)

Lemma is_minimum_succ ids :
  0 ∈ ids → (∀ k, k ∈ ids → 0 ≤ k) → is_minimum (Z.succ <$> ids) 1.
Proof.
  intros H0 Hge. split.
  - apply list_elem_of_fmap. by exists 0.
  - intros y (k & -> & Hk)%list_elem_of_fmap. specialize (Hge k Hk). lia.
Qed.

Lemma DiseaseSingle_init_Ok
    table feature_id metadata category_column match_ids_column batch_column
    reference diff_scale disp_scale normalization m :
  DiseaseSingle_init table feature_id metadata category_column
    match_ids_column batch_column reference diff_scale disp_scale
    normalization = Ok m →
  ∃ aligned match_col batch_col category_col case_ids batch_ids disease_ids
    reference_id s,
    df_loc metadata (ids table) = Ok aligned
    ∧ df_getitem aligned match_ids_column = Ok match_col
    ∧ df_getitem aligned batch_column = Ok batch_col
    ∧ df_getitem aligned category_column = Ok category_col
    ∧ relabel match_col = Ok (case_ids, fit match_col)
    ∧ relabel batch_col = Ok (batch_ids, fit batch_col)
    ∧ relabel category_col = Ok (disease_ids, fit category_col)
    ∧ transform (fit category_col) [reference] = Ok [reference_id]
    ∧ dat m !! "cc_ids" = Some (PIntArray (Z.succ <$> case_ids))
    ∧ dat m !! "batch_ids" = Some (PIntArray (Z.succ <$> batch_ids))
    ∧ dat m !! "disease_ids" = Some (PIntArray (Z.succ <$> disease_ids))
    ∧ dat m !! "reference" = Some (PInt (reference_id + 1))
    ∧ spec m = Some s
    ∧ params s = ["a0"; "a1"; "a2"; "diff"; "disease_disp"]
    ∧ dims s !! "diff" = Some ["feature"; "disease_ids"]
    ∧ dims s !! "disease_disp" = None
    ∧ dims s !! "disp_scale" = Some ["feature"; "disease_ids"]
    ∧ coords s !! "disease_ids" = Some (LStr <$> classes_ (fit category_col)).
Proof.
  intros H. unfold DiseaseSingle_init in H. cbv zeta in H.
  apply bind_Ok_inv in H as (self & Hself & H).
  apply bind_Ok_inv in H as (aligned & Hloc & H).
  apply bind_Ok_inv in H as (match_col & Hmatch & H).
  apply bind_Ok_inv in H as ([case_ids case_enc] & Hcase & H).
  apply bind_Ok_inv in H as (batch_col & Hbatch & H).
  apply bind_Ok_inv in H as ([batch_ids batch_enc] & Hbid & H).
  apply bind_Ok_inv in H as (category_col & Hcat & H).
  apply bind_Ok_inv in H as ([disease_ids disease_enc] & Hdis & H).
  apply bind_Ok_inv in H as (slog & Hslog & H).
  apply bind_Ok_inv in H as (control_loc & Hcl & H).
  apply bind_Ok_inv in H as (reference_id & Href & H).
  apply SingleFeatureModel_init_Ok in Hself as [_ ->].
  pose proof Hcase as (-> & _)%relabel_Ok.
  pose proof Hbid as (-> & _)%relabel_Ok.
  pose proof Hdis as (-> & _)%relabel_Ok.
  apply bind_Ok_inv in Href as (a & Ha & Hint).
  destruct a as [|z [|? ?]]; simpl in Hint; try discriminate Hint.
  injection Hint as ->.
  injection H as <-.
  exists aligned, match_col, batch_col, category_col, case_ids, batch_ids,
    disease_ids, reference_id.
  eexists. split_and!; try eassumption; reflexivity.
Qed.

(** C1, as stated, fails on the two-group model: bound with reference
    ["Sick"], its group codes are not the shifted encoder ids of the
    category column, and its dictionary has no entry [reference]. *)
Lemma DESeq2_codes_are_not_encoder_ids :
  ∃ m cats,
    DESeq2_init elements diagonal_table case_control_metadata "Status"
      (Some "Sick") "depth" = Ok m
    ∧ df_getitem case_control_metadata "Status" = Ok cats
    ∧ dat m !! "M" = Some (PIntArray [2; 1])
    ∧ ¬ shifted_encoder_ids cats (PIntArray [2; 1])
    ∧ dat m !! "reference" = None.
Proof.
  destruct (DESeq2_init elements diagonal_table case_control_metadata
              "Status" (Some "Sick") "depth") as [m|e] eqn:E;
    [|by vm_compute in E].
  pose proof E as H. apply DESeq2_init_Ok in H
    as (cats & other & r & slog & cl & Hc & _ & Hr & _ & _ & HM & _ & Hno & _).
  simpl in Hr. subst r.
  exists m, cats. split_and!; [done|done| | |done].
  - rewrite HM. vm_compute in Hc. injection Hc as <-. by vm_compute.
  - vm_compute in Hc. injection Hc as <-.
    intros (ids & encoder & Hrel & Hids).
    vm_compute in Hrel. injection Hrel as <- <-. discriminate Hids.
Qed.

(** C1, amended. In every bound [DiseaseSingle] model the arrays
    [disease_ids], [cc_ids] and [batch_ids] of the data dictionary are the
    encoder's zero-based ids of the category, match and batch columns of the
    aligned metadata, each shifted by one; the least entry of each array is
    1; and the entry [reference] is one more than the position of the
    supplied reference label among the disease classes. *)
Theorem DiseaseSingle_ids_are_one_based
    table feature_id metadata category_column match_ids_column batch_column
    reference diff_scale disp_scale normalization m :
  DiseaseSingle_init table feature_id metadata category_column
    match_ids_column batch_column reference diff_scale disp_scale
    normalization = Ok m →
  ∃ aligned category_col match_col batch_col disease cc batch k,
    df_loc metadata (ids table) = Ok aligned
    ∧ df_getitem aligned category_column = Ok category_col
    ∧ df_getitem aligned match_ids_column = Ok match_col
    ∧ df_getitem aligned batch_column = Ok batch_col
    ∧ dat m !! "disease_ids" = Some disease
    ∧ dat m !! "cc_ids" = Some cc
    ∧ dat m !! "batch_ids" = Some batch
    ∧ shifted_encoder_ids category_col disease
    ∧ shifted_encoder_ids match_col cc
    ∧ shifted_encoder_ids batch_col batch
    ∧ (∀ a, a ∈ [disease; cc; batch] → ∃ ids, a = PIntArray ids ∧ is_minimum ids 1)
    ∧ dat m !! "reference" = Some (PInt (Z.of_nat k + 1))
    ∧ classes_ (fit category_col) !! k = Some reference.
Proof.
  intros H. apply DiseaseSingle_init_Ok in H
    as (aligned & match_col & batch_col & category_col & case_ids & batch_ids
        & disease_ids & rid & s & Hloc & Hm & Hb & Hc & Rm & Rb & Rc & Href
        & Dm & Db & Dc & Dr & _).
  apply transform_singleton in Href as (k & [= ->] & Hk).
  apply index_of_lookup in Hk.
  assert (df_len aligned ≠ 0%nat) as Hrows.
  { apply df_getitem_length in Hc. rewrite <- Hc.
    assert (reference ∈ category_col) as Hin.
    { apply elem_of_np_unique. by eapply list_elem_of_lookup_2. }
    destruct category_col; [by apply elem_of_nil in Hin|done]. }
  assert (∀ col column, df_getitem aligned column = Ok col → col ≠ []) as Hne.
  { intros col column Hcol%df_getitem_length ->. simpl in Hcol. done. }
  exists aligned, category_col, match_col, batch_col.
  eexists _, _, _, k. split_and!; try eassumption.
  - by eexists _, _.
  - by eexists _, _.
  - by eexists _, _.
  - intros a Ha.
    repeat (apply elem_of_cons in Ha as [->|Ha]);
      [..|by apply elem_of_nil in Ha];
      eexists; (split; [reflexivity|]);
      apply is_minimum_succ; eapply relabel_ids_from_0; eauto.
Qed.

Lemma DiseaseSingle_ids_are_one_based_witness :
  ∃ m,
    DiseaseSingle_init paired_table "f1" paired_metadata "Status"
      "match_ids_column" "batch_column" "Healthy" (PInt 1) (PInt 1) "depth"
    = Ok m
    ∧ dat m !! "disease_ids" = Some (PIntArray [2; 1; 2; 1])
    ∧ dat m !! "reference" = Some (PInt 2).
Proof.
  destruct (DiseaseSingle_init paired_table "f1" paired_metadata "Status"
              "match_ids_column" "batch_column" "Healthy" (PInt 1) (PInt 1)
              "depth") as [m|e] eqn:E; [|vm_compute in E; discriminate E].
  destruct (DiseaseSingle_ids_are_one_based _ _ _ _ _ _ _ _ _ _ m E)
    as (aligned & category_col & match_col & batch_col & disease & cc & batch
        & k & Hloc & Hc & _ & _ & Hd & _ & _ & (ids & enc & Hrel & ->) & _ & _
        & _ & Href & Hk).
  vm_compute in Hloc. injection Hloc as <-.
  vm_compute in Hc. injection Hc as <-.
  vm_compute in Hrel. injection Hrel as <- <-.
  destruct k as [|[|k]]; vm_compute in Hk; try discriminate Hk.
  exists m. split; [reflexivity|]. split; [exact Hd|exact Href].
Defined.

(** *** A reference label that is not observed *)

(** C6, as stated, fails on the two-group models: a supplied reference label
    that no sample carries is accepted, and every sample gets code 2. *)
Lemma DESeq2_accepts_absent_reference :
  df_getitem case_control_metadata "Status" = Ok ["Healthy"; "Sick"]
  ∧ ∃ m,
      DESeq2_init elements diagonal_table case_control_metadata "Status"
        (Some "Control") "depth" = Ok m
      ∧ dat m !! "M" = Some (PIntArray [2; 2])
      ∧ ¬ raises (DESeq2_init elements diagonal_table case_control_metadata
                    "Status" (Some "Control") "depth").
Proof.
  split; [reflexivity|].
  destruct (DESeq2_init elements diagonal_table case_control_metadata
              "Status" (Some "Control") "depth") as [m|e] eqn:E;
    [|by vm_compute in E].
  pose proof E as H. apply DESeq2_init_Ok in H
    as (cats & other & r & slog & cl & Hc & _ & Hr & _ & _ & HM & _).
  simpl in Hr. subst r. vm_compute in Hc. injection Hc as <-.
  exists m. split_and!; [reflexivity| |by intros [e He]].
  rewrite HM. by vm_compute.
Qed.

(** C6, amended. The construction of a [DiseaseSingle] model fails whenever
    the supplied reference label does not occur in the category column of
    the aligned metadata. *)
Theorem DiseaseSingle_rejects_absent_reference
    table feature_id metadata category_column match_ids_column batch_column
    reference diff_scale disp_scale normalization :
  (∀ aligned category_col,
     df_loc metadata (ids table) = Ok aligned →
     df_getitem aligned category_column = Ok category_col →
     reference ∉ category_col) →
  raises (DiseaseSingle_init table feature_id metadata category_column
            match_ids_column batch_column reference diff_scale disp_scale
            normalization).
Proof.
  intros Habsent.
  destruct (DiseaseSingle_init _ _ _ _ _ _ _ _ _ _) as [m|e] eqn:E;
    [|by exists e].
  apply DiseaseSingle_init_Ok in E
    as (aligned & match_col & batch_col & category_col & case_ids & batch_ids
        & disease_ids & rid & s & Hloc & _ & _ & Hc & _ & _ & _ & Href & _).
  apply transform_singleton in Href as (k & _ & Hk).
  apply index_of_lookup, list_elem_of_lookup_2 in Hk.
  simpl in Hk. rewrite elem_of_np_unique in Hk.
  destruct (Habsent aligned category_col Hloc Hc Hk).
Qed.

Lemma DiseaseSingle_rejects_absent_reference_witness :
  raises (DiseaseSingle_init paired_table "f1" paired_metadata "Status"
            "match_ids_column" "batch_column" "Control" (PInt 1) (PInt 1)
            "depth").
Proof.
  apply DiseaseSingle_rejects_absent_reference.
  intros aligned category_col Hloc Hc.
  vm_compute in Hloc. injection Hloc as <-.
  vm_compute in Hc. injection Hc as <-.
  rewrite !elem_of_cons, elem_of_nil.
  intros [H|[H|[H|[H|H]]]]; try discriminate H. destruct H.
Defined.

(** The error of the witness is the encoder's [ValueError]. *)
Example DiseaseSingle_absent_reference_ValueError :
  DiseaseSingle_init paired_table "f1" paired_metadata "Status"
    "match_ids_column" "batch_column" "Control" (PInt 1) (PInt 1) "depth"
  = Raise ValueError.
Proof. by vm_compute. Qed.

(** *** The declared specification of the disease model *)

(** In every bound disease model the dimension table has no entry for the
    parameter [disease_disp]; the axis pair sits under the key
    [disp_scale], which names a prior scale of the data dictionary. *)
Lemma DiseaseSingle_spec
    table feature_id metadata category_column match_ids_column batch_column
    reference diff_scale disp_scale normalization m :
  DiseaseSingle_init table feature_id metadata category_column
    match_ids_column batch_column reference diff_scale disp_scale
    normalization = Ok m →
  ∃ s aligned category_col,
    spec m = Some s
    ∧ df_loc metadata (ids table) = Ok aligned
    ∧ df_getitem aligned category_column = Ok category_col
    ∧ params s = ["a0"; "a1"; "a2"; "diff"; "disease_disp"]
    ∧ dims s !! "diff" = Some ["feature"; "disease_ids"]
    ∧ dims s !! "disease_disp" = None
    ∧ dims s !! "disp_scale" = Some ["feature"; "disease_ids"]
    ∧ coords s !! "disease_ids" = Some (LStr <$> classes_ (fit category_col)).
Proof.
  intros H. apply DiseaseSingle_init_Ok in H
    as (aligned & match_col & batch_col & category_col & case_ids & batch_ids
        & disease_ids & rid & s & Hloc & _ & _ & Hc & _ & _ & _ & _
        & _ & _ & _ & _ & Hs & Hp & Hdiff & Hdisp & Hscale & Hcoords).
  by exists s, aligned, category_col.
Qed.

(** C8. Bound on two matched pairs, the disease model declares the
    parameter [disease_disp] and labels the disease axis with the encoder's
    classes, but its dimension table gives the axis pair to [diff] and to
    the key [disp_scale]: [disease_disp] has no entry. *)
Theorem DiseaseSingle_dims_lack_disease_disp :
  ∃ m s,
    DiseaseSingle_init paired_table "f1" paired_metadata "Status"
      "match_ids_column" "batch_column" "Healthy" (PInt 1) (PFloat (f_real 0.1))
      "depth" = Ok m
    ∧ spec m = Some s
    ∧ params s = ["a0"; "a1"; "a2"; "diff"; "disease_disp"]
    ∧ dims s !! "diff" = Some ["feature"; "disease_ids"]
    ∧ dims s !! "disease_disp" = None
    ∧ dims s !! "disp_scale" = Some ["feature"; "disease_ids"]
    ∧ coords s !! "disease_ids" = Some [LStr "DiseaseA"; LStr "Healthy"].
Proof.
  destruct (DiseaseSingle_init paired_table "f1" paired_metadata "Status"
              "match_ids_column" "batch_column" "Healthy" (PInt 1)
              (PFloat (f_real 0.1)) "depth") as [m|e] eqn:E;
    [|vm_compute in E; discriminate E].
  pose proof E as H. apply DiseaseSingle_spec in H
    as (s & aligned & category_col & Hs & Hloc & Hc & Hp & Hdiff & Hdisp
        & Hscale & Hcoords).
  vm_compute in Hloc. injection Hloc as <-.
  vm_compute in Hc. injection Hc as <-.
  exists m, s. split_and!; [reflexivity|assumption..|].
  rewrite Hcoords. by vm_compute.
Qed.

(** ** Alignment of the metadata with the table *)

Section alignment.
Implicit Types (df : DataFrame) (k : string) (keys : list string).

Lemma df_loc_cons df k keys :
  df_loc df (k :: keys) =
    rows ← loc1 df k;
    rest ← df_loc df keys;
    mret {| df_columns := df_columns df;
            df_rows := rows ++ df_rows rest |}.
Proof.
  unfold df_loc. change (mapM (loc1 df) (k :: keys))
    with (rows ← loc1 df k; rest ← mapM (loc1 df) keys; mret (rows :: rest)).
  destruct (loc1 df k) as [rows|e]; [|done].
  destruct (mapM (loc1 df) keys) as [rest|e]; done.
Qed.

Lemma loc1_absent df k : k ∉ df_index df → loc1 df k = Raise KeyError.
Proof.
  intros Hk. unfold loc1.
  destruct (filter _ _) as [|row rows] eqn:Hf; [done|].
  destruct Hk. assert (row ∈ filter (λ row, row.1 = k) (df_rows df)) as Hin
    by (rewrite Hf; by left).
  apply list_elem_of_filter in Hin as [<- Hin].
  by apply list_elem_of_fmap_2.
Qed.

Lemma loc1_raises df k e : loc1 df k = Raise e → e = KeyError.
Proof. unfold loc1. destruct (filter _ _); [by intros [= <-]|done]. Qed.

(** A key without a row makes [.loc] raise [KeyError]. *)
Lemma df_loc_absent df keys k :
  k ∈ keys → k ∉ df_index df → df_loc df keys = Raise KeyError.
Proof.
  intros Hin Hk. induction keys as [|h t IH]; [by apply elem_of_nil in Hin|].
  rewrite df_loc_cons.
  destruct (loc1 df h) as [rows|e] eqn:Hh.
  - apply elem_of_cons in Hin as [->|Hin].
    + by rewrite loc1_absent in Hh.
    + by rewrite IH.
  - by apply loc1_raises in Hh as ->.
Qed.

Lemma loc1_unique df k rows :
  NoDup (df_index df) → loc1 df k = Ok rows → ∃ cells, rows = [(k, cells)].
Proof.
  unfold loc1, df_index. intros Hnd.
  assert (∀ l : list (string * list string), NoDup (fst <$> l) →
            filter (λ row, row.1 = k) l = []
            ∨ ∃ cells, filter (λ row, row.1 = k) l = [(k, cells)]) as Hone.
  { induction l as [|[k' cells] l IH]; [by left|].
    rewrite fmap_cons, NoDup_cons. intros [Hk' Hl].
    destruct (decide (k' = k)) as [->|Hne].
    - right. exists cells. rewrite filter_cons_True by done. f_equal.
      destruct (filter _ l) as [|row rows'] eqn:Hf; [done|].
      destruct Hk'.
      assert (row ∈ filter (λ row, row.1 = k) l) as Hin
        by (rewrite Hf; by left).
      apply list_elem_of_filter in Hin as [<- Hin].
      simpl. by apply list_elem_of_fmap_2.
    - rewrite filter_cons_False by done. by apply IH. }
  destruct (Hone _ Hnd) as [->|[cells ->]]; [done|].
  intros [= <-]. by exists cells.
Qed.

(** With distinct index labels, the frame that [.loc] returns lists the
    keys in their order. *)
Lemma df_loc_index df keys aligned :
  NoDup (df_index df) →
  df_loc df keys = Ok aligned →
  df_index aligned = keys.
Proof.
  intros Hnd. revert aligned.
  induction keys as [|k keys IH]; intros aligned.
  - by intros [= <-].
  - rewrite df_loc_cons.
    intros (rows & Hrows & H)%bind_Ok_inv.
    apply bind_Ok_inv in H as (rest & Hrest & [= <-]).
    apply (loc1_unique _ _ _ Hnd) in Hrows as [cells ->].
    unfold df_index. simpl. f_equal. by apply IH.
Qed.
End alignment.

(** [DiseaseSingle] reads the metadata through [.loc]: its rows follow the
    table's sample order, and a table sample without metadata is an error. *)
Lemma DiseaseSingle_aligns_metadata
    table feature_id metadata category_column match_ids_column batch_column
    reference diff_scale disp_scale normalization :
  let init := DiseaseSingle_init table feature_id metadata category_column
                match_ids_column batch_column reference diff_scale disp_scale
                normalization in
  (feature_id ∈ observation_ids table →
   (∃ k, k ∈ ids table ∧ k ∉ df_index metadata) →
   init = Raise KeyError)
  ∧ (NoDup (df_index metadata) →
     ∀ m, init = Ok m →
       ∃ aligned category_col disease_ids,
         df_loc metadata (ids table) = Ok aligned
         ∧ df_index aligned = ids table
         ∧ df_getitem aligned category_column = Ok category_col
         ∧ relabel category_col = Ok (disease_ids, fit category_col)
         ∧ dat m !! "disease_ids" = Some (PIntArray (Z.succ <$> disease_ids))).
Proof.
  intros init. split.
  - intros Hf (k & Hk & Hno). unfold init, DiseaseSingle_init.
    unfold SingleFeatureModel_init. rewrite decide_True by done.
    rewrite (bind_Ok _ _ _ eq_refl).
    by rewrite (bind_Raise _ _ _ (df_loc_absent _ _ _ Hk Hno)).
  - intros Hnd m H. apply DiseaseSingle_init_Ok in H
      as (aligned & match_col & batch_col & category_col & case_ids & batch_ids
          & disease_ids & rid & s & Hloc & _ & _ & Hc & _ & _ & Rc & _
          & _ & _ & Dc & _).
    exists aligned, category_col, disease_ids.
    split_and!; try done. by eapply df_loc_index.
Qed.

(** C2. The two-group constructor does not align the metadata with the
    table.  For the table with samples [s1; s2], metadata listed in the
    order [s2; s1] gives the group codes in metadata order, and metadata
    that lacks [s2] is accepted.  On the same inputs [DiseaseSingle] codes
    the samples in table order and raises [KeyError]. *)
Theorem DESeq2_does_not_align_metadata :
  ids diagonal_table = ["s1"; "s2"]
  ∧ df_index reversed_metadata = ["s2"; "s1"]
  ∧ df_index foreign_metadata = ["s1"; "s9"]
  ∧ (∃ m, DESeq2_init elements diagonal_table reversed_metadata "Status"
            (Some "Healthy") "depth" = Ok m
          ∧ sample_names m = ["s1"; "s2"]
          ∧ dat m !! "M" = Some (PIntArray [2; 1]))
  ∧ (∃ m, DESeq2_init elements diagonal_table case_control_metadata "Status"
            (Some "Healthy") "depth" = Ok m
          ∧ dat m !! "M" = Some (PIntArray [1; 2]))
  ∧ (∃ m, DESeq2_init elements diagonal_table foreign_metadata "Status"
            (Some "Healthy") "depth" = Ok m
          ∧ dat m !! "M" = Some (PIntArray [1; 2]))
  ∧ (∃ m, DiseaseSingle_init diagonal_table "f1" reversed_metadata "Status"
            "match_ids_column" "batch_column" "Healthy" (PInt 1) (PInt 1)
            "depth" = Ok m
          ∧ dat m !! "disease_ids" = Some (PIntArray [1; 2]))
  ∧ DiseaseSingle_init diagonal_table "f1" foreign_metadata "Status"
      "match_ids_column" "batch_column" "Healthy" (PInt 1) (PInt 1) "depth"
    = Raise KeyError.
Proof.
  split_and!; [reflexivity..| | | | |by vm_compute].
  - destruct (DESeq2_init elements diagonal_table reversed_metadata "Status"
                (Some "Healthy") "depth") as [m|e] eqn:E;
      [|vm_compute in E; discriminate E].
    exists m. split; [reflexivity|].
    unfold DESeq2_init in E. vm_compute in E. injection E as <-.
    split; by vm_compute.
  - destruct (DESeq2_init elements diagonal_table case_control_metadata
                "Status" (Some "Healthy") "depth") as [m|e] eqn:E;
      [|vm_compute in E; discriminate E].
    exists m. split; [reflexivity|].
    vm_compute in E. injection E as <-. by vm_compute.
  - destruct (DESeq2_init elements diagonal_table foreign_metadata "Status"
                (Some "Healthy") "depth") as [m|e] eqn:E;
      [|vm_compute in E; discriminate E].
    exists m. split; [reflexivity|].
    vm_compute in E. injection E as <-. by vm_compute.
  - destruct (DiseaseSingle_init diagonal_table "f1" reversed_metadata
                "Status" "match_ids_column" "batch_column" "Healthy" (PInt 1)
                (PInt 1) "depth") as [m|e] eqn:E;
      [|vm_compute in E; discriminate E].
    exists m. split; [reflexivity|].
    vm_compute in E. injection E as <-. by vm_compute.
Qed.

(** * Further properties *)

(** ** [_swap] *)

(** The value that [_swap] leaves at a position that held [v]. *)
Lemma swap_fmap vec x y :
  _swap vec x y
  = (λ v, if decide (v = x) then y else if decide (v = y) then x else v) <$> vec.
Proof.
  unfold _swap, mask_assign. induction vec as [|v vec IH]; [done|].
  cbn. f_equal; [|exact IH].
  repeat case_bool_decide; repeat case_decide; congruence.
Qed.

(** X1. [_swap] keeps the length of the vector; a position that held [x]
    holds [y], a position that held [y] holds [x], and every other position
    is unchanged. *)
Theorem swap_exchanges_values (vec : list Z) (x y : Z) :
  length (_swap vec x y) = length vec
  ∧ ∀ i v, vec !! i = Some v →
      _swap vec x y !! i
      = Some (if decide (v = x) then y else if decide (v = y) then x else v).
Proof.
  rewrite swap_fmap. split; [by rewrite length_fmap|].
  intros i v Hv. by rewrite list_lookup_fmap, Hv.
Qed.

(** X2. Swapping the same two values twice gives the vector back. *)
Theorem swap_involutive (vec : list Z) (x y : Z) :
  _swap (_swap vec x y) x y = vec.
Proof.
  rewrite !swap_fmap, <- list_fmap_compose.
  rewrite <- (list_fmap_id vec) at 2. apply list_fmap_ext.
  intros i v _. simpl. repeat case_decide; congruence.
Qed.

(** X3. The order of the two values does not matter, and a vector that
    holds neither value is returned unchanged. *)
Theorem swap_symmetric (vec : list Z) (x y : Z) :
  _swap vec x y = _swap vec y x
  ∧ (x ∉ vec → y ∉ vec → _swap vec x y = vec).
Proof.
  rewrite !swap_fmap. split.
  - apply list_fmap_ext. intros i v _. repeat case_decide; congruence.
  - intros Hx Hy. rewrite <- (list_fmap_id vec) at 2. apply list_fmap_ext.
    intros i v Hv%list_elem_of_lookup_2. simpl.
    repeat case_decide; congruence.
Qed.

(** ** The encoder: order and distinctness of the classes *)

Lemma compare_Lt_strict s h :
  String.compare s h = Lt → strict String.le s h.
Proof.
  intros E. unfold strict, String.le, String.leb.
  rewrite (String.compare_antisym h s), E. simpl. tauto.
Qed.

Lemma compare_Gt_strict s h :
  String.compare s h = Gt → strict String.le h s.
Proof.
  intros E. apply compare_Lt_strict.
  by rewrite String.compare_antisym, E.
Qed.

Lemma insert_unique_HdRel_strict s h cs :
  strict String.le h s →
  HdRel (strict String.le) h cs →
  HdRel (strict String.le) h (insert_unique s cs).
Proof.
  intros Hs Hcs. destruct cs as [|c cs]; simpl; [by constructor|].
  destruct (String.compare s c); [done|by constructor|].
  inversion_clear Hcs. by constructor.
Qed.

Lemma insert_unique_strictly_sorted s cs :
  Sorted (strict String.le) cs → Sorted (strict String.le) (insert_unique s cs).
Proof.
  induction cs as [|h t IH]; simpl; intros Hcs.
  - by repeat constructor.
  - destruct (String.compare s h) eqn:E; [done| |].
    + constructor; [done|]. constructor. by apply compare_Lt_strict.
    + inversion_clear Hcs as [|? ? Ht Hh]. constructor; [by apply IH|].
      apply insert_unique_HdRel_strict; [|done]. by apply compare_Gt_strict.
Qed.

Lemma np_unique_strictly_sorted x :
  StronglySorted (strict String.le) (np_unique x).
Proof.
  apply Sorted_StronglySorted; [apply _|].
  induction x as [|h t IH]; simpl; [constructor|].
  by apply insert_unique_strictly_sorted.
Qed.

Lemma np_unique_NoDup x : NoDup (np_unique x).
Proof.
  pose proof (np_unique_strictly_sorted x) as Hs.
  induction Hs as [|c cs _ IH Hall]; constructor; [|done].
  intros Hin. rewrite Forall_forall in Hall.
  destruct (Hall c Hin) as [Hle Hnle]. by apply Hnle.
Qed.

(** Two sequences with the same labels have the same classes. *)
Lemma np_unique_ext x y : (∀ l, l ∈ x ↔ l ∈ y) → np_unique x = np_unique y.
Proof.
  intros Hxy. apply (Sorted_unique String.le); [apply np_unique_sorted..|].
  apply NoDup_Permutation; [apply np_unique_NoDup..|].
  intros l. by rewrite !elem_of_np_unique.
Qed.

Lemma index_of_lt l cs k : index_of l cs = Some k → (k < length cs)%nat.
Proof. intros H%index_of_lookup. by eapply lookup_lt_Some. Qed.

(** X4. The classes of a fitted encoder are the observed labels, each once,
    in strictly increasing order. *)
Theorem fit_classes_sorted_distinct (x : list string) :
  StronglySorted (strict String.le) (classes_ (fit x))
  ∧ NoDup (classes_ (fit x))
  ∧ ∀ l, l ∈ classes_ (fit x) ↔ l ∈ x.
Proof.
  split_and!; simpl.
  - apply np_unique_strictly_sorted.
  - apply np_unique_NoDup.
  - intros l. apply elem_of_np_unique.
Qed.

(** X5. The ids that [relabel] returns are indices into the classes, and
    two positions get the same id exactly when they carry the same label. *)
Theorem relabel_ids_identify_labels
    (x : list string) ids encoder (i j : nat) (li lj : string) :
  relabel x = Ok (ids, encoder) →
  x !! i = Some li →
  x !! j = Some lj →
  ∃ ki kj,
    ids !! i = Some ki ∧ ids !! j = Some kj
    ∧ 0 ≤ ki < Z.of_nat (length (classes_ encoder))
    ∧ (ki = kj ↔ li = lj).
Proof.
  intros (-> & _ & Hrt)%relabel_Ok Hi Hj.
  destruct (Hrt i li Hi) as (ki & Hki & Hxi).
  destruct (Hrt j lj Hj) as (kj & Hkj & Hxj).
  exists (Z.of_nat ki), (Z.of_nat kj). split_and!; [done|done|lia| |].
  - apply index_of_lt in Hxi. simpl. lia.
  - split.
    + intros Heq%Nat2Z.inj. subst kj.
      apply index_of_lookup in Hxi, Hxj. congruence.
    + intros <-. congruence.
Qed.

Lemma relabel_ids_identify_labels_witness :
  ∃ ki kj, (ki = kj ↔ "b" = "b") ∧ 0 ≤ ki < 2.
Proof.
  destruct (relabel_ids_identify_labels ["b"; "a"; "b"] [1; 0; 1]
              (fit ["b"; "a"; "b"]) 0 2 "b" "b")
    as (ki & kj & _ & _ & Hb & Heq).
  - reflexivity.
  - reflexivity.
  - reflexivity.
  - exists ki, kj. split; [exact Heq|exact Hb].
Defined.

(** X6. The classes, and the id of every label, depend on which labels
    occur and not on their order or multiplicity. *)
Theorem relabel_ignores_order (x y : list string) ids_x ids_y ex ey :
  (∀ l, l ∈ x ↔ l ∈ y) →
  relabel x = Ok (ids_x, ex) →
  relabel y = Ok (ids_y, ey) →
  classes_ ex = classes_ ey
  ∧ ∀ i j l, x !! i = Some l → y !! j = Some l → ids_x !! i = ids_y !! j.
Proof.
  intros Hxy (-> & _ & Hx)%relabel_Ok (-> & _ & Hy)%relabel_Ok.
  pose proof (np_unique_ext x y Hxy) as Heq. split; [done|].
  intros i j l Hi Hj.
  destruct (Hx i l Hi) as (k & -> & Hk).
  destruct (Hy j l Hj) as (k' & -> & Hk').
  rewrite Heq in Hk. congruence.
Qed.

Lemma relabel_ignores_order_witness :
  classes_ (fit ["b"; "a"; "b"]) = classes_ (fit ["a"; "b"]).
Proof.
  refine (proj1 (relabel_ignores_order ["b"; "a"; "b"] ["a"; "b"]
                   [1; 0; 1] [0; 1] _ _ _ eq_refl eq_refl)).
  intros l. rewrite !elem_of_cons, elem_of_nil. tauto.
Defined.

(** ** Normalisation, continued *)

Lemma normalization_Ok table norm slog :
  _normalization_func table norm = Ok slog →
  norm = "depth" ∧ slog = np_log <$> sum_sample table.
Proof.
  unfold _normalization_func. repeat case_decide; [done| |done].
  by intros [= <-].
Qed.

Lemma normalization_Raise table norm e :
  _normalization_func table norm = Raise e → e = NameError ∨ e = ValueError.
Proof.
  unfold _normalization_func. repeat case_decide; [|done|];
    intros [= <-]; auto.
Qed.

Lemma np_log_neg_inf t : np_log t = f_neg_inf ↔ t = 0.
Proof. unfold np_log. repeat case_decide; naive_solver. Qed.

Lemma np_log_nan t : np_log t = f_nan ↔ t < 0.
Proof. unfold np_log. repeat case_decide; split; (done || lia). Qed.

Lemma entry_nonneg (row : list Z) j :
  (∀ c, c ∈ row → 0 ≤ c) → 0 ≤ entry row j.
Proof.
  intros Hrow. unfold entry. destruct (row !! j) as [c|] eqn:E; simpl; [|done].
  apply Hrow. by eapply list_elem_of_lookup_2.
Qed.

Lemma sum_nonneg_zero (l : list Z) :
  (∀ c, c ∈ l → 0 ≤ c) →
  0 ≤ foldr Z.add 0 l ∧ (foldr Z.add 0 l = 0 ↔ (∀ c, c ∈ l → c = 0)).
Proof.
  induction l as [|c l IH]; intros Hl; simpl.
  - split; [done|]. split; [|done]. intros _ c Hc. by apply elem_of_nil in Hc.
  - destruct IH as [Hge Hz]; [intros c' Hc'; apply Hl; by right|].
    assert (0 ≤ c) by (apply Hl; by left).
    split; [lia|]. split.
    + intros Hsum c' [->|Hc']%elem_of_cons; [lia|]. apply Hz; [lia|done].
    + intros Hall. rewrite (Hall c) by (by left).
      simpl. apply Hz. intros c' Hc'. apply Hall. by right.
Qed.

(** X7. On a table of non-negative counts the depth offsets contain no NaN,
    and the offset of a sample is minus infinity exactly when the sample has
    a zero in every feature. *)
Theorem depth_offsets_of_counts (table : Table) :
  (∀ row c, row ∈ matrix_data table → c ∈ row → 0 ≤ c) →
  ∃ slog,
    _normalization_func table "depth" = Ok slog
    ∧ (f_nan ∉ slog)
    ∧ ∀ j, (j < length (ids table))%nat →
        (slog !! j = Some f_neg_inf
         ↔ (∀ row, row ∈ matrix_data table → entry row j = 0)).
Proof.
  intros Hpos. exists (np_log <$> sum_sample table).
  assert (∀ j, (∀ c, c ∈ (λ row, entry row j) <$> matrix_data table → 0 ≤ c))
    as Hcol.
  { intros j c (row & -> & Hrow)%list_elem_of_fmap.
    apply entry_nonneg. intros c. by apply Hpos. }
  split_and!; [reflexivity| |].
  - intros (t & Ht & Hin)%list_elem_of_fmap.
    symmetry in Ht. apply np_log_nan in Ht.
    apply list_elem_of_lookup in Hin as (j & Hj).
    assert (j < length (ids table))%nat as Hlt.
    { rewrite <- sum_sample_length. by eapply lookup_lt_Some. }
    rewrite sum_sample_lookup in Hj by done. injection Hj as <-.
    destruct (sum_nonneg_zero _ (Hcol j)) as [Hge _].
    unfold sample_total in Ht. lia.
  - intros j Hj. rewrite list_lookup_fmap, sum_sample_lookup by done. simpl.
    destruct (sum_nonneg_zero _ (Hcol j)) as [_ Hz].
    split.
    + intros [= Hlog%np_log_neg_inf]. intros row Hrow.
      apply Hz; [exact Hlog|]. apply list_elem_of_fmap. by exists row.
    + intros Hall. f_equal. apply np_log_neg_inf. apply Hz.
      intros c (row & -> & Hrow)%list_elem_of_fmap. by apply Hall.
Qed.

Lemma depth_offsets_of_counts_witness :
  ∃ slog,
    _normalization_func zero_depth_table "depth" = Ok slog
    ∧ (f_nan ∉ slog)
    ∧ slog !! 0%nat = Some f_neg_inf.
Proof.
  destruct (depth_offsets_of_counts zero_depth_table)
    as (slog & Hs & Hnan & Hinf).
  - intros row c Hrow Hc. simpl in Hrow.
    apply elem_of_cons in Hrow as [->|Hrow].
    { apply elem_of_cons in Hc as [->|Hc]; [lia|].
      apply elem_of_cons in Hc as [->|Hc]; [lia|].
      apply elem_of_nil in Hc. destruct Hc. }
    apply elem_of_cons in Hrow as [->|Hrow].
    { apply elem_of_cons in Hc as [->|Hc]; [lia|].
      apply elem_of_cons in Hc as [->|Hc]; [lia|].
      apply elem_of_nil in Hc. destruct Hc. }
    apply elem_of_nil in Hrow. destruct Hrow.
  - exists slog. split; [exact Hs|]. split; [exact Hnan|].
    apply (Hinf 0%nat); [simpl; lia|].
    intros row Hrow. simpl in Hrow.
    apply elem_of_cons in Hrow as [->|Hrow]; [reflexivity|].
    apply elem_of_cons in Hrow as [->|Hrow]; [reflexivity|].
    apply elem_of_nil in Hrow. destruct Hrow.
Defined.

(** ** Metadata frames, continued *)

Lemma index_of_Some_elem l cs k : index_of l cs = Some k → l ∈ cs.
Proof. intros H%index_of_lookup. by eapply list_elem_of_lookup_2. Qed.

Lemma df_getitem_Ok df column vals :
  df_getitem df column = Ok vals ↔
  ∃ j, index_of column (df_columns df) = Some j
       ∧ vals = (λ row, default "" (row.2 !! j)) <$> df_rows df.
Proof.
  unfold df_getitem. destruct (index_of _ _) as [j|]; split.
  - intros [= <-]. by exists j.
  - by intros (j' & [= <-] & ->).
  - done.
  - by intros (j' & [=] & _).
Qed.

Lemma df_getitem_present df column :
  column ∈ df_columns df → ∃ vals, df_getitem df column = Ok vals.
Proof.
  intros [j Hj]%index_of_elem. unfold df_getitem. rewrite Hj. eauto.
Qed.

Lemma df_getitem_Raise df column e :
  df_getitem df column = Raise e → e = KeyError ∧ column ∉ df_columns df.
Proof.
  unfold df_getitem. destruct (index_of _ _) as [j|] eqn:E; [done|].
  intros [= <-]. split; [done|]. intros [j Hj]%index_of_elem. congruence.
Qed.

Lemma loc1_Ok df k rows :
  loc1 df k = Ok rows →
  rows = filter (λ row, row.1 = k) (df_rows df) ∧ rows ≠ [].
Proof.
  unfold loc1. destruct (filter _ _) as [|row rest]; [done|].
  by intros [= <-].
Qed.

Lemma loc1_present df k : k ∈ df_index df → ∃ rows, loc1 df k = Ok rows.
Proof.
  intros (row & -> & Hrow)%list_elem_of_fmap. unfold loc1.
  destruct (filter _ _) as [|r rest] eqn:Hf; [|eauto].
  destruct (filter_nil_not_elem_of _ _ row Hf); done.
Qed.

Lemma df_loc_present df keys :
  (∀ k, k ∈ keys → k ∈ df_index df) → ∃ aligned, df_loc df keys = Ok aligned.
Proof.
  induction keys as [|k keys IH]; intros Hkeys.
  - by eexists.
  - destruct (loc1_present df k) as [rows Hrows]; [apply Hkeys; by left|].
    destruct IH as [rest Hrest]; [intros k' Hk'; apply Hkeys; by right|].
    rewrite df_loc_cons, Hrows, Hrest. by eexists.
Qed.

Lemma df_loc_Ok_present df keys aligned :
  df_loc df keys = Ok aligned → ∀ k, k ∈ keys → k ∈ df_index df.
Proof.
  intros Hloc k Hk. destruct (decide (k ∈ df_index df)) as [|Hno]; [done|].
  by rewrite (df_loc_absent _ _ _ Hk Hno) in Hloc.
Qed.

Lemma df_loc_Raise df keys e : df_loc df keys = Raise e → e = KeyError.
Proof.
  induction keys as [|k keys IH]; [done|].
  rewrite df_loc_cons. destruct (loc1 df k) as [rows|e'] eqn:Hk.
  - destruct (df_loc df keys) as [rest|e'']; [done|].
    intros [= <-]. by apply IH.
  - intros [= <-]. by eapply loc1_raises.
Qed.

Lemma df_loc_columns df keys aligned :
  df_loc df keys = Ok aligned → df_columns aligned = df_columns df.
Proof.
  unfold df_loc. destruct (mapM _ _); [|done]. by intros [= <-].
Qed.

Lemma df_loc_rows_elem df keys aligned row :
  df_loc df keys = Ok aligned →
  row ∈ df_rows aligned ↔ row ∈ df_rows df ∧ row.1 ∈ keys.
Proof.
  revert aligned. induction keys as [|k keys IH]; intros aligned.
  - intros [= <-]. simpl. rewrite !elem_of_nil. tauto.
  - rewrite df_loc_cons.
    intros (rows & Hrows & H)%bind_Ok_inv.
    apply bind_Ok_inv in H as (rest & Hrest & [= <-]). simpl.
    apply loc1_Ok in Hrows as [-> _].
    rewrite elem_of_app, list_elem_of_filter, (IH rest Hrest), elem_of_cons.
    tauto.
Qed.

(** With distinct index labels, row [i] of the aligned frame is the row of
    the metadata that carries the [i]-th key. *)
Lemma df_loc_lookup df keys aligned i k cells :
  NoDup (df_index df) →
  df_loc df keys = Ok aligned →
  keys !! i = Some k →
  (k, cells) ∈ df_rows df →
  df_rows aligned !! i = Some (k, cells).
Proof.
  intros Hnd. revert aligned i.
  induction keys as [|k' keys IH]; intros aligned i; [done|].
  rewrite df_loc_cons.
  intros (rows & Hrows & H)%bind_Ok_inv Hi Hin.
  apply bind_Ok_inv in H as (rest & Hrest & [= <-]). simpl.
  pose proof (loc1_unique _ _ _ Hnd Hrows) as [cells' ->].
  destruct i as [|i]; simpl in *.
  - injection Hi as ->. do 2 f_equal.
    apply loc1_Ok in Hrows as [Hf _].
    assert ((k, cells') ∈ df_rows df) as Hin'.
    { assert ((k, cells') ∈ filter (λ row, row.1 = k) (df_rows df)) as Hx
        by (rewrite <- Hf; by left).
      by apply list_elem_of_filter in Hx as [_ Hx]. }
    apply list_elem_of_lookup in Hin as (p & Hp), Hin' as (p' & Hp').
    assert (p' = p) as ->.
    { eapply (NoDup_lookup (df_index df)); [done|..]; unfold df_index;
        rewrite list_lookup_fmap; [by rewrite Hp'|by rewrite Hp]. }
    congruence.
  - by apply IH.
Qed.

(** ** The disease model, continued *)

(** Every step of a construction that returns, with the scalar entries of
    the data dictionary. *)
Lemma DiseaseSingle_init_steps
    table feature_id metadata category_column match_ids_column batch_column
    reference diff_scale disp_scale normalization m :
  DiseaseSingle_init table feature_id metadata category_column
    match_ids_column batch_column reference diff_scale disp_scale
    normalization = Ok m →
  ∃ aligned match_col batch_col category_col case_ids batch_ids disease_ids
    slog control_loc k,
    feature_id ∈ observation_ids table
    ∧ df_loc metadata (ids table) = Ok aligned
    ∧ df_getitem aligned match_ids_column = Ok match_col
    ∧ df_getitem aligned batch_column = Ok batch_col
    ∧ df_getitem aligned category_column = Ok category_col
    ∧ relabel match_col = Ok (case_ids, fit match_col)
    ∧ relabel batch_col = Ok (batch_ids, fit batch_col)
    ∧ relabel category_col = Ok (disease_ids, fit category_col)
    ∧ _normalization_func table normalization = Ok slog
    ∧ np_log_inverse (length (observation_ids table)) = Ok control_loc
    ∧ index_of reference (np_unique category_col) = Some k
    ∧ dat m !! "C" = Some (PInt (Z.of_nat (df_len aligned) `div` 2))
    ∧ dat m !! "N" = Some (PInt (Z.of_nat (df_len aligned)))
    ∧ dat m !! "B" = Some (PInt (Z.of_nat (length (np_unique_int batch_ids))))
    ∧ dat m !! "D" = Some (PInt (Z.of_nat (length (np_unique_int disease_ids))))
    ∧ dat m !! "slog" = Some (PFloatArray slog)
    ∧ dat m !! "control_loc" = Some (PFloat control_loc)
    ∧ dat m !! "reference" = Some (PInt (Z.of_nat k + 1))
    ∧ dat m !! "disease_ids" = Some (PIntArray (Z.succ <$> disease_ids))
    ∧ dat m !! "cc_ids" = Some (PIntArray (Z.succ <$> case_ids))
    ∧ dat m !! "batch_ids" = Some (PIntArray (Z.succ <$> batch_ids))
    ∧ ∃ s, spec m = Some s
           ∧ coords s !! "disease_ids" = Some (LStr <$> np_unique category_col)
           ∧ coords s !! "tbl_sample" = Some (LStr <$> ids table).
Proof.
  intros H. unfold DiseaseSingle_init in H. cbv zeta in H.
  apply bind_Ok_inv in H as (self & Hself & H).
  apply bind_Ok_inv in H as (aligned & Hloc & H).
  apply bind_Ok_inv in H as (match_col & Hmatch & H).
  apply bind_Ok_inv in H as ([case_ids case_enc] & Hcase & H).
  apply bind_Ok_inv in H as (batch_col & Hbatch & H).
  apply bind_Ok_inv in H as ([batch_ids batch_enc] & Hbid & H).
  apply bind_Ok_inv in H as (category_col & Hcat & H).
  apply bind_Ok_inv in H as ([disease_ids disease_enc] & Hdis & H).
  apply bind_Ok_inv in H as (slog & Hslog & H).
  apply bind_Ok_inv in H as (control_loc & Hcl & H).
  apply bind_Ok_inv in H as (reference_id & Href & H).
  apply SingleFeatureModel_init_Ok in Hself as [Hfeat ->].
  pose proof Hcase as (-> & _)%relabel_Ok.
  pose proof Hbid as (-> & _)%relabel_Ok.
  pose proof Hdis as (-> & _)%relabel_Ok.
  apply bind_Ok_inv in Href as (a & Ha & Hint).
  apply transform_singleton in Ha as (k & -> & Hk).
  injection Hint as <-.
  injection H as <-.
  exists aligned, match_col, batch_col, category_col, case_ids, batch_ids,
    disease_ids, slog, control_loc, k.
  split_and!; try eassumption; try reflexivity.
  eexists. split_and!; reflexivity.
Qed.

(** The ids of a sequence are exactly the indices of its classes. *)
Lemma relabel_ids_range x ids encoder :
  relabel x = Ok (ids, encoder) →
  ∀ z, z ∈ ids ↔ ∃ k, (k < length (classes_ encoder))%nat ∧ z = Z.of_nat k.
Proof.
  intros (-> & Hlen & Hrt)%relabel_Ok z. simpl. split.
  - intros (i & Hi)%list_elem_of_lookup.
    assert (i < length x)%nat as (l & Hl)%lookup_lt_is_Some.
    { rewrite <- Hlen. by eapply lookup_lt_Some. }
    destruct (Hrt i l Hl) as (k & Hk & Hidx).
    exists k. split; [by eapply index_of_lt|congruence].
  - intros (k & (c & Hc)%lookup_lt_is_Some & ->).
    assert (c ∈ x) as (i & Hi)%list_elem_of_lookup.
    { apply elem_of_np_unique. by eapply list_elem_of_lookup_2. }
    destruct (Hrt i c Hi) as (k' & Hk' & Hidx).
    apply index_of_lookup in Hidx.
    assert (k' = k) as ->
      by (eapply NoDup_lookup; [apply (np_unique_NoDup x)|done..]).
    by eapply list_elem_of_lookup_2.
Qed.

(** [len(np.unique(ids))] is the number of classes. *)
Lemma relabel_unique_count x ids encoder :
  relabel x = Ok (ids, encoder) →
  length (np_unique_int ids) = length (classes_ encoder).
Proof.
  intros Hrel. unfold np_unique_int.
  rewrite merge_sort_Permutation.
  transitivity (length (Z.of_nat <$> seq 0 (length (classes_ encoder))));
    [|by rewrite length_fmap, length_seq].
  apply Permutation_length, NoDup_Permutation.
  - apply NoDup_remove_dups.
  - apply NoDup_fmap_2; [apply _|apply NoDup_seq].
  - intros z. rewrite elem_of_remove_dups, (relabel_ids_range _ _ _ Hrel).
    rewrite list_elem_of_fmap. split.
    + intros (k & Hk & ->). exists k. split; [done|].
      apply elem_of_seq. lia.
    + intros (k & -> & Hk%elem_of_seq). exists k. split; [lia|done].
Qed.

Lemma elem_of_succ_ids (ids : list Z) n :
  (∀ z, z ∈ ids ↔ ∃ k, (k < n)%nat ∧ z = Z.of_nat k) →
  ∀ z, z ∈ Z.succ <$> ids ↔ 1 ≤ z ≤ Z.of_nat n.
Proof.
  intros Hids z. rewrite list_elem_of_fmap. split.
  - intros (y & -> & (k & Hk & ->)%Hids). lia.
  - intros Hz. exists (z - 1). split; [lia|]. apply Hids.
    exists (Z.to_nat (z - 1)). lia.
Qed.

(** X8. In a bound disease model [D] is the number of labels on the disease
    axis and [B] the number of batches; the entries of [disease_ids] are
    exactly the codes 1..D, those of [batch_ids] exactly 1..B, and
    [reference] is one of 1..D. *)
Theorem DiseaseSingle_codes_cover_categories
    table feature_id metadata category_column match_ids_column batch_column
    reference diff_scale disp_scale normalization m :
  DiseaseSingle_init table feature_id metadata category_column
    match_ids_column batch_column reference diff_scale disp_scale
    normalization = Ok m →
  ∃ D B r disease batch s classes,
    dat m !! "D" = Some (PInt D)
    ∧ dat m !! "B" = Some (PInt B)
    ∧ dat m !! "reference" = Some (PInt r)
    ∧ dat m !! "disease_ids" = Some (PIntArray disease)
    ∧ dat m !! "batch_ids" = Some (PIntArray batch)
    ∧ spec m = Some s
    ∧ coords s !! "disease_ids" = Some classes
    ∧ D = Z.of_nat (length classes)
    ∧ (∀ z, z ∈ disease ↔ 1 ≤ z ≤ D)
    ∧ (∀ z, z ∈ batch ↔ 1 ≤ z ≤ B)
    ∧ 1 ≤ r ≤ D.
Proof.
  intros H. apply DiseaseSingle_init_steps in H
    as (aligned & match_col & batch_col & category_col & case_ids & batch_ids
        & disease_ids & slog & cl & k & _ & _ & _ & _ & _ & _ & Rb & Rc & _
        & _ & Hk & _ & _ & HB & HD & _ & _ & Hr & Hd & _ & Hb
        & s & Hs & Hcoords & _).
  exists (Z.of_nat (length (np_unique_int disease_ids))),
    (Z.of_nat (length (np_unique_int batch_ids))), (Z.of_nat k + 1),
    (Z.succ <$> disease_ids), (Z.succ <$> batch_ids), s,
    (LStr <$> np_unique category_col).
  split_and!; try eassumption.
  - rewrite length_fmap. f_equal. apply (relabel_unique_count _ _ _ Rc).
  - intros z. rewrite (relabel_unique_count _ _ _ Rc).
    apply elem_of_succ_ids, (relabel_ids_range _ _ _ Rc).
  - intros z. rewrite (relabel_unique_count _ _ _ Rb).
    apply elem_of_succ_ids, (relabel_ids_range _ _ _ Rb).
  - lia.
  - rewrite (relabel_unique_count _ _ _ Rc). apply index_of_lt in Hk.
    simpl. lia.
Qed.

Lemma DiseaseSingle_codes_cover_categories_witness :
  ∃ m D disease,
    DiseaseSingle_init paired_table "f1" paired_metadata "Status"
      "match_ids_column" "batch_column" "Healthy" (PInt 1) (PInt 1) "depth"
    = Ok m
    ∧ dat m !! "D" = Some (PInt D)
    ∧ dat m !! "disease_ids" = Some (PIntArray disease)
    ∧ ∀ z, z ∈ disease ↔ 1 ≤ z ≤ D.
Proof.
  destruct (DiseaseSingle_init paired_table "f1" paired_metadata "Status"
              "match_ids_column" "batch_column" "Healthy" (PInt 1) (PInt 1)
              "depth") as [m|e] eqn:E; [|vm_compute in E; discriminate E].
  destruct (DiseaseSingle_codes_cover_categories _ _ _ _ _ _ _ _ _ _ m E)
    as (D & B & r & disease & batch & s & classes & HD & _ & _ & Hd & _ & _
        & _ & _ & Hcover & _).
  exists m, D, disease. split; [reflexivity|].
  split; [exact HD|]. split; [exact Hd|exact Hcover].
Defined.

(** X9. When the index labels of the metadata are distinct, a bound disease
    model has [N] equal to the number of table samples and [C] to half of
    it, and [slog], [disease_ids], [cc_ids] and [batch_ids] all have [N]
    entries. *)
Theorem DiseaseSingle_arrays_have_N_entries
    table feature_id metadata category_column match_ids_column batch_column
    reference diff_scale disp_scale normalization m :
  NoDup (df_index metadata) →
  DiseaseSingle_init table feature_id metadata category_column
    match_ids_column batch_column reference diff_scale disp_scale
    normalization = Ok m →
  ∃ slog disease cc batch,
    dat m !! "N" = Some (PInt (Z.of_nat (length (ids table))))
    ∧ dat m !! "C" = Some (PInt (Z.of_nat (length (ids table)) `div` 2))
    ∧ dat m !! "slog" = Some (PFloatArray slog)
    ∧ dat m !! "disease_ids" = Some (PIntArray disease)
    ∧ dat m !! "cc_ids" = Some (PIntArray cc)
    ∧ dat m !! "batch_ids" = Some (PIntArray batch)
    ∧ length slog = length (ids table)
    ∧ length disease = length (ids table)
    ∧ length cc = length (ids table)
    ∧ length batch = length (ids table).
Proof.
  intros Hnd H. apply DiseaseSingle_init_steps in H
    as (aligned & match_col & batch_col & category_col & case_ids & batch_ids
        & disease_ids & slog & cl & k & _ & Hloc & Hm & Hb & Hc & Rm & Rb & Rc
        & Hslog & _ & _ & HC & HN & _ & _ & Dslog & _ & _ & Dd & Dm & Db & _).
  assert (df_len aligned = length (ids table)) as Hlen.
  { rewrite <- (df_loc_index _ _ _ Hnd Hloc).
    unfold df_len, df_index. by rewrite length_fmap. }
  rewrite Hlen in HC, HN.
  apply normalization_Ok in Hslog as [_ ->].
  apply relabel_Ok in Rm as (_ & Lm & _), Rb as (_ & Lb & _), Rc as (_ & Lc & _).
  apply df_getitem_length in Hm, Hb, Hc.
  eexists _, _, _, _. split_and!; try eassumption.
  - by rewrite length_fmap, sum_sample_length.
  - rewrite length_fmap. congruence.
  - rewrite length_fmap. congruence.
  - rewrite length_fmap. congruence.
Qed.

Lemma DiseaseSingle_arrays_have_N_entries_witness :
  ∃ m disease,
    DiseaseSingle_init paired_table "f1" paired_metadata "Status"
      "match_ids_column" "batch_column" "Healthy" (PInt 1) (PInt 1) "depth"
    = Ok m
    ∧ dat m !! "N" = Some (PInt 4)
    ∧ dat m !! "disease_ids" = Some (PIntArray disease)
    ∧ length disease = 4%nat.
Proof.
  destruct (DiseaseSingle_init paired_table "f1" paired_metadata "Status"
              "match_ids_column" "batch_column" "Healthy" (PInt 1) (PInt 1)
              "depth") as [m|e] eqn:E; [|vm_compute in E; discriminate E].
  assert (NoDup (df_index paired_metadata)) as Hnd
    by exact (bool_decide_unpack (NoDup (df_index paired_metadata)) I).
  destruct (DiseaseSingle_arrays_have_N_entries _ _ _ _ _ _ _ _ _ _ m Hnd E)
    as (slog & disease & cc & batch & HN & _ & _ & Hd & _ & _ & _ & Ld & _).
  exists m, disease. split; [reflexivity|].
  split; [exact HN|]. split; [exact Hd|exact Ld].
Defined.

(** X10. With distinct index labels in the metadata, the code that a bound
    disease model stores for the [i]-th table sample decodes, through the
    labels of the disease axis, to the category that the metadata gives to
    that sample. *)
Theorem DiseaseSingle_codes_follow_table_order
    table feature_id metadata category_column match_ids_column batch_column
    reference diff_scale disp_scale normalization m i k cells j :
  NoDup (df_index metadata) →
  DiseaseSingle_init table feature_id metadata category_column
    match_ids_column batch_column reference diff_scale disp_scale
    normalization = Ok m →
  ids table !! i = Some k →
  (k, cells) ∈ df_rows metadata →
  index_of category_column (df_columns metadata) = Some j →
  ∃ disease s classes p,
    dat m !! "disease_ids" = Some (PIntArray disease)
    ∧ spec m = Some s
    ∧ coords s !! "disease_ids" = Some classes
    ∧ disease !! i = Some (Z.of_nat p + 1)
    ∧ classes !! p = Some (LStr (default "" (cells !! j))).
Proof.
  intros Hnd H Hi Hrow Hj. apply DiseaseSingle_init_steps in H
    as (aligned & match_col & batch_col & category_col & case_ids & batch_ids
        & disease_ids & slog & cl & kr & _ & Hloc & _ & _ & Hc & _ & _ & Rc
        & _ & _ & _ & _ & _ & _ & _ & _ & _ & _ & Dd & _ & _
        & s & Hs & Hcoords & _).
  pose proof (df_loc_lookup _ _ _ _ _ _ Hnd Hloc Hi Hrow) as Hai.
  apply df_getitem_Ok in Hc as (j' & Hj' & ->).
  rewrite (df_loc_columns _ _ _ Hloc), Hj in Hj'. injection Hj' as <-.
  apply relabel_Ok in Rc as (_ & _ & Hrt).
  destruct (Hrt i (default "" (cells !! j))) as (p & Hp & Hidx).
  { by rewrite list_lookup_fmap, Hai. }
  eexists (Z.succ <$> disease_ids), s, _, p.
  split_and!; [done..| |].
  - rewrite list_lookup_fmap, Hp. simpl. f_equal; lia.
  - rewrite list_lookup_fmap. by rewrite (index_of_lookup _ _ _ Hidx).
Qed.

Lemma DiseaseSingle_codes_follow_table_order_witness :
  ∃ m disease (classes : list label) p,
    DiseaseSingle_init paired_table "f1" paired_metadata "Status"
      "match_ids_column" "batch_column" "Healthy" (PInt 1) (PInt 1) "depth"
    = Ok m
    ∧ dat m !! "disease_ids" = Some (PIntArray disease)
    ∧ disease !! 3%nat = Some (Z.of_nat p + 1)
    ∧ classes !! p = Some (LStr "DiseaseA").
Proof.
  destruct (DiseaseSingle_init paired_table "f1" paired_metadata "Status"
              "match_ids_column" "batch_column" "Healthy" (PInt 1) (PInt 1)
              "depth") as [m|e] eqn:E; [|vm_compute in E; discriminate E].
  assert (NoDup (df_index paired_metadata)) as Hnd
    by exact (bool_decide_unpack (NoDup (df_index paired_metadata)) I).
  destruct (DiseaseSingle_codes_follow_table_order _ _ _ _ _ _ _ _ _ _ m
              3%nat "s4" ["DiseaseA"; "pair2"; "study1"] 0%nat
              Hnd E eq_refl ltac:(left) eq_refl)
    as (disease & s & classes & p & Hd & _ & _ & Hp & Hc).
  exists m, disease, classes, p. split; [reflexivity|].
  split; [exact Hd|]. split; [exact Hp|exact Hc].
Defined.

Lemma bind_Raise_inv {A B} (m : result A) (f : A → result B) (e : exn) :
  m ≫= f = Raise e → m = Raise e ∨ ∃ a, m = Ok a ∧ f a = Raise e.
Proof. destruct m as [a|e']; [eauto|]. intros [= <-]. by left. Qed.

Lemma df_loc_missing_key df keys e :
  df_loc df keys = Raise e → ∃ k, k ∈ keys ∧ k ∉ df_index df.
Proof.
  intros Hloc. destruct (decide (Forall (λ k, k ∈ df_index df) keys)) as [Hall|Hex].
  - rewrite Forall_forall in Hall.
    destruct (df_loc_present df keys Hall) as [aligned Ha]. congruence.
  - apply not_Forall_Exists in Hex; [|apply _].
    apply Exists_exists in Hex as (k & Hk & Hno). by exists k.
Qed.

Lemma transform_singleton_Raise encoder l e :
  transform encoder [l] = Raise e → e = ValueError ∧ l ∉ classes_ encoder.
Proof.
  rewrite transform_cons. unfold transform1.
  destruct (index_of l (classes_ encoder)) as [k|] eqn:E; [done|].
  intros [= <-]. split; [done|]. intros [k Hk]%index_of_elem. congruence.
Qed.

Lemma relabel_returns x : ∃ ids, relabel x = Ok (ids, fit x).
Proof. destruct (relabel_spec x) as (ids & H & _). eauto. Qed.

(** The category values of the aligned metadata are the categories of the
    metadata rows that carry a table sample. *)
Lemma aligned_category_elem df keys aligned column vals v :
  df_loc df keys = Ok aligned →
  df_getitem aligned column = Ok vals →
  v ∈ vals ↔
  ∃ k cells j, k ∈ keys ∧ (k, cells) ∈ df_rows df
               ∧ index_of column (df_columns df) = Some j
               ∧ default "" (cells !! j) = v.
Proof.
  intros Hloc (j & Hj & ->)%df_getitem_Ok.
  rewrite (df_loc_columns _ _ _ Hloc) in Hj.
  rewrite list_elem_of_fmap. split.
  - intros ([k cells] & -> & Hrow).
    apply (df_loc_rows_elem _ _ _ _ Hloc) in Hrow as [Hrow Hk].
    by exists k, cells, j.
  - intros (k & cells & j' & Hk & Hrow & Hj' & <-).
    assert (j' = j) as -> by congruence.
    exists (k, cells). split; [done|].
    by apply (df_loc_rows_elem _ _ _ _ Hloc).
Qed.

(** X11. The construction of a disease model returns exactly when the
    feature is in the table, every table sample has a metadata row, the
    three design columns exist, the normalisation is ["depth"], and some
    table sample has the reference label as its category. *)
Theorem DiseaseSingle_returns_iff
    table feature_id metadata category_column match_ids_column batch_column
    reference diff_scale disp_scale normalization :
  (∃ m, DiseaseSingle_init table feature_id metadata category_column
          match_ids_column batch_column reference diff_scale disp_scale
          normalization = Ok m)
  ↔ feature_id ∈ observation_ids table
    ∧ (∀ k, k ∈ ids table → k ∈ df_index metadata)
    ∧ match_ids_column ∈ df_columns metadata
    ∧ batch_column ∈ df_columns metadata
    ∧ normalization = "depth"
    ∧ ∃ k cells j,
        k ∈ ids table ∧ (k, cells) ∈ df_rows metadata
        ∧ index_of category_column (df_columns metadata) = Some j
        ∧ default "" (cells !! j) = reference.
Proof.
  split.
  - intros [m H]. apply DiseaseSingle_init_steps in H
      as (aligned & match_col & batch_col & category_col & case_ids & batch_ids
          & disease_ids & slog & cl & k & Hf & Hloc & Hm & Hb & Hc & _ & _ & _
          & Hslog & _ & Hk & _).
    pose proof (df_loc_columns _ _ _ Hloc) as Hcols.
    apply df_getitem_Ok in Hm as (jm & Hjm%index_of_Some_elem & _).
    apply df_getitem_Ok in Hb as (jb & Hjb%index_of_Some_elem & _).
    rewrite Hcols in Hjm, Hjb.
    apply normalization_Ok in Hslog as [-> _].
    split_and!; [done|by eapply df_loc_Ok_present|done..|].
    apply (aligned_category_elem _ _ _ _ _ reference Hloc Hc).
    apply index_of_Some_elem in Hk. by apply elem_of_np_unique.
  - intros (Hf & Hkeys & Hm & Hb & -> & Href).
    destruct (df_loc_present _ _ Hkeys) as [aligned Hloc].
    pose proof (df_loc_columns _ _ _ Hloc) as Hcols.
    destruct (df_getitem_present aligned match_ids_column) as [match_col Hmc];
      [by rewrite Hcols|].
    destruct (df_getitem_present aligned batch_column) as [batch_col Hbc];
      [by rewrite Hcols|].
    destruct (df_getitem_present aligned category_column)
      as [category_col Hcc].
    { rewrite Hcols. destruct Href as (k & cells & j & _ & _ & Hj & _).
      by eapply index_of_Some_elem. }
    apply (aligned_category_elem _ _ _ _ _ reference Hloc Hcc) in Href.
    apply elem_of_np_unique, index_of_elem in Href as [kr Hkr].
    destruct (relabel_returns match_col) as [case_ids Rm].
    destruct (relabel_returns batch_col) as [batch_ids Rb].
    destruct (relabel_returns category_col) as [disease_ids Rc].
    destruct (np_log_inverse_Ok (observation_ids table)) as [cl Hcl].
    { intros Hnil. rewrite Hnil in Hf. by apply elem_of_nil in Hf. }
    unfold DiseaseSingle_init, SingleFeatureModel_init. cbv zeta.
    rewrite decide_True by done.
    rewrite (bind_Ok _ _ _ eq_refl), (bind_Ok _ _ _ Hloc).
    rewrite (bind_Ok _ _ _ Hmc), (bind_Ok _ _ _ Rm).
    rewrite (bind_Ok _ _ _ Hbc), (bind_Ok _ _ _ Rb).
    rewrite (bind_Ok _ _ _ Hcc), (bind_Ok _ _ _ Rc).
    rewrite (bind_Ok _ _ _ (normalization_depth table)), (bind_Ok _ _ _ Hcl).
    rewrite transform_cons. unfold transform1. simpl classes_. rewrite Hkr.
    by eexists.
Qed.

(** X12. When the construction of a disease model fails, the error names
    its cause: an unknown feature id; a missing sample or design column
    ([KeyError]); the mode ["median_ratios"] ([NameError]); or an unknown
    mode or an unobserved reference label ([ValueError]).  It raises nothing
    else. *)
Theorem DiseaseSingle_error_causes
    table feature_id metadata category_column match_ids_column batch_column
    reference diff_scale disp_scale normalization e :
  DiseaseSingle_init table feature_id metadata category_column
    match_ids_column batch_column reference diff_scale disp_scale
    normalization = Raise e →
  (e = UnknownIDError ∧ feature_id ∉ observation_ids table)
  ∨ (e = KeyError
     ∧ ((∃ k, k ∈ ids table ∧ k ∉ df_index metadata)
        ∨ match_ids_column ∉ df_columns metadata
        ∨ batch_column ∉ df_columns metadata
        ∨ category_column ∉ df_columns metadata))
  ∨ (e = NameError ∧ normalization = "median_ratios")
  ∨ (e = ValueError
     ∧ ((normalization ≠ "depth" ∧ normalization ≠ "median_ratios")
        ∨ ∀ aligned category_col,
            df_loc metadata (ids table) = Ok aligned →
            df_getitem aligned category_column = Ok category_col →
            reference ∉ category_col)).
Proof.
  unfold DiseaseSingle_init. cbv zeta. intros H.
  apply bind_Raise_inv in H as [H|(self & Hself & H)].
  { left. unfold SingleFeatureModel_init in H. case_decide; [done|].
    by injection H as <-. }
  apply SingleFeatureModel_init_Ok in Hself as [Hf ->].
  right.
  apply bind_Raise_inv in H as [H|(aligned & Hloc & H)].
  { left. split; [by eapply df_loc_Raise|]. left. by eapply df_loc_missing_key. }
  pose proof (df_loc_columns _ _ _ Hloc) as Hcols.
  apply bind_Raise_inv in H as [H|(match_col & Hm & H)].
  { left. apply df_getitem_Raise in H as [-> H]. rewrite Hcols in H. auto. }
  apply bind_Raise_inv in H as [H|([case_ids ce] & Rm & H)].
  { destruct (relabel_returns match_col) as [? ?]. congruence. }
  apply bind_Raise_inv in H as [H|(batch_col & Hb & H)].
  { left. apply df_getitem_Raise in H as [-> H]. rewrite Hcols in H. auto. }
  apply bind_Raise_inv in H as [H|([batch_ids be] & Rb & H)].
  { destruct (relabel_returns batch_col) as [? ?]. congruence. }
  apply bind_Raise_inv in H as [H|(category_col & Hc & H)].
  { left. apply df_getitem_Raise in H as [-> H]. rewrite Hcols in H. auto. }
  apply bind_Raise_inv in H as [H|([disease_ids de] & Rc & H)].
  { destruct (relabel_returns category_col) as [? ?]. congruence. }
  apply relabel_Ok in Rc as (-> & _).
  right.
  apply bind_Raise_inv in H as [H|(slog & Hslog & H)].
  { unfold _normalization_func in H. repeat case_decide.
    - left. by injection H as <-.
    - done.
    - right. injection H as <-. auto. }
  apply bind_Raise_inv in H as [H|(cl & Hcl & H)].
  { destruct (np_log_inverse_Ok (observation_ids table)) as [? ?]; [|congruence].
    intros Hnil. rewrite Hnil in Hf. by apply elem_of_nil in Hf. }
  apply bind_Raise_inv in H as [H|(rid & Hrid & H)]; [|done].
  apply bind_Raise_inv in H as [H|(a & Ha & H)].
  - apply transform_singleton_Raise in H as [-> Hno]. right. split; [done|].
    right. intros aligned' cats' Hloc' Hc'.
    assert (aligned' = aligned) as -> by congruence.
    assert (cats' = category_col) as -> by congruence.
    simpl in Hno. by rewrite elem_of_np_unique in Hno.
  - apply transform_singleton in Ha as (k & -> & _). done.
Qed.

Lemma DiseaseSingle_error_causes_witness :
  "f9" ∉ observation_ids paired_table.
Proof.
  destruct (DiseaseSingle_error_causes paired_table "f9" paired_metadata
              "Status" "match_ids_column" "batch_column" "Healthy" (PInt 1)
              (PInt 1) "depth" UnknownIDError eq_refl)
    as [[_ H]|[[H _]|[[H _]|[H _]]]];
    [exact H|discriminate H..].
Defined.

(** ** The two-group constructors, continued *)

Lemma first_Raise {A} (l : list A) e : first l = Raise e → e = IndexError ∧ l = [].
Proof. destruct l; [|done]. by intros [= <-]. Qed.

Lemma elem_of_candidates (cats : list string) reference c :
  c ∈ (list_to_set cats ∖ singleton_of reference : gset string)
  ↔ c ∈ cats ∧ reference ≠ Some c.
Proof.
  rewrite elem_of_difference, elem_of_list_to_set.
  destruct reference as [r|]; simpl.
  - rewrite elem_of_singleton. split; intros [? ?]; split; congruence.
  - rewrite elem_of_empty. split; intros [? ?]; split; [done..|tauto].
Qed.

(** [list(set(cats) - {reference})[0]] exists exactly when some category
    differs from the reference. *)
Lemma other_returns_iff order cats reference :
  set_order_ok order →
  (∃ o, first (order (list_to_set cats ∖ singleton_of reference)) = Ok o)
  ↔ ∃ c, c ∈ cats ∧ reference ≠ Some c.
Proof.
  intros Hord.
  set (s := list_to_set cats ∖ singleton_of reference : gset string).
  split.
  - intros [o Ho%first_elem]. rewrite (Hord s) in Ho.
    apply elem_of_elements, elem_of_candidates in Ho. by exists o.
  - intros (c & Hc). apply first_Ok_nonempty. intros Hnil.
    assert (c ∈ order s) as Hin.
    { rewrite (Hord s). by apply elem_of_elements, elem_of_candidates. }
    rewrite Hnil in Hin. by apply elem_of_nil in Hin.
Qed.

Lemma resolve_reference_returns (cats : list string) reference c :
  c ∈ cats →
  ∃ r, match reference with None => first cats | Some r' => Ok r' end = Ok r.
Proof.
  intros Hc. destruct reference as [r|]; [eauto|].
  destruct cats; [by apply elem_of_nil in Hc|]. simpl. eauto.
Qed.

Lemma code_returns (cats : list string) r :
  cats ≠ [] →
  ∃ code, first (list_of_int_set (list_to_set (group_codes cats r))) = Ok code.
Proof.
  intros Hne. apply first_Ok_nonempty. intros Hnil.
  destruct cats as [|c cats]; [done|].
  assert (Z.b2z (bool_decide (c ≠ r)) + 1
          ∈ list_of_int_set (list_to_set (group_codes (c :: cats) r))) as Hin.
  { unfold list_of_int_set. rewrite merge_sort_Permutation.
    apply elem_of_elements, elem_of_list_to_set. by left. }
  rewrite Hnil in Hin. by apply elem_of_nil in Hin.
Qed.

Lemma SingleDESeq2_init_steps
    order table feature_id metadata category_column reference normalization m :
  SingleDESeq2_init order table feature_id metadata category_column
    reference normalization = Ok m →
  ∃ cats other r code slog control_loc,
    feature_id ∈ observation_ids table
    ∧ df_getitem metadata category_column = Ok cats
    ∧ first (order (list_to_set cats ∖ singleton_of reference)) = Ok other
    ∧ match reference with None => first cats | Some r' => Ok r' end = Ok r
    ∧ first (list_of_int_set (list_to_set (group_codes cats r))) = Ok code
    ∧ _normalization_func table normalization = Ok slog
    ∧ np_log_inverse (length (observation_ids table)) = Ok control_loc
    ∧ dat m !! "M" = Some (PIntArray (group_codes cats r))
    ∧ dat m !! "slog" = Some (PFloatArray slog)
    ∧ dat m !! "control_loc" = Some (PFloat control_loc)
    ∧ dat m !! "control_scale" = Some (PInt 1).
Proof.
  intros H. unfold SingleDESeq2_init in H. cbv zeta in H.
  apply bind_Ok_inv in H as (self & Hself & H).
  apply bind_Ok_inv in H as (cats & Hcats & H).
  apply bind_Ok_inv in H as (other & Hother & H).
  apply bind_Ok_inv in H as (r & Hr & H).
  apply bind_Ok_inv in H as (code & Hcode & H).
  apply bind_Ok_inv in H as (slog & Hslog & H).
  apply bind_Ok_inv in H as (control_loc & Hcl & H).
  apply SingleFeatureModel_init_Ok in Hself as [Hf ->].
  injection H as <-.
  exists cats, other, r, code, slog, control_loc.
  split_and!; try eassumption; reflexivity.
Qed.

Lemma DESeq2_init_steps
    order table metadata category_column reference normalization m :
  DESeq2_init order table metadata category_column reference normalization
  = Ok m →
  ∃ cats other r slog control_loc,
    df_getitem metadata category_column = Ok cats
    ∧ first (order (list_to_set cats ∖ singleton_of reference)) = Ok other
    ∧ match reference with None => first cats | Some r' => Ok r' end = Ok r
    ∧ _normalization_func table normalization = Ok slog
    ∧ np_log_inverse (length (observation_ids table)) = Ok control_loc
    ∧ m = specify_model
            (add_parameters (TableModel_init table)
               (list_to_map [
                  ("slog", PFloatArray slog);
                  ("M", PIntArray (group_codes cats r));
                  ("control_loc", PFloat control_loc);
                  ("control_scale", PInt 5)]))
            {| params := ["intercept"; "beta"; "alpha"];
               dims := list_to_map [
                 ("intercept", ["feature"]);
                 ("beta", ["feature"]);
                 ("alpha", ["group"; "feature"]);
                 ("log_lhood", ["tbl_sample"; "feature"]);
                 ("y_predict", ["tbl_sample"; "feature"])];
               coords := list_to_map [
                 ("groups", [LStr r; LStr other]);
                 ("features", LStr <$> observation_ids table);
                 ("tbl_samples", LStr <$> ids table)];
               include_observed_data := true;
               posterior_predictive := "y_predict";
               log_likelihood := "log_lhood" |}.
Proof.
  intros H. unfold DESeq2_init in H. cbv zeta in H.
  apply bind_Ok_inv in H as (cats & Hcats & H).
  apply bind_Ok_inv in H as (other & Hother & H).
  apply bind_Ok_inv in H as (r & Hr & H).
  apply bind_Ok_inv in H as (slog & Hslog & H).
  apply bind_Ok_inv in H as (control_loc & Hcl & H).
  injection H as <-.
  exists cats, other, r, slog, control_loc.
  split_and!; try eassumption; reflexivity.
Qed.

(** X13. Under every iteration order of the set, [DESeq2] returns exactly
    when the category column exists, some sample's category differs from
    the supplied reference (or, without a reference, the metadata has a
    row), the normalisation is ["depth"], and the table has a feature. *)
Theorem DESeq2_returns_iff
    order table metadata category_column reference normalization :
  set_order_ok order →
  (∃ m, DESeq2_init order table metadata category_column reference
          normalization = Ok m)
  ↔ (∃ cats c, df_getitem metadata category_column = Ok cats
               ∧ c ∈ cats ∧ reference ≠ Some c)
    ∧ normalization = "depth"
    ∧ observation_ids table ≠ [].
Proof.
  intros Hord. split.
  - intros [m H]. apply DESeq2_init_steps in H
      as (cats & other & r & slog & cl & Hc & Ho & _ & Hslog & Hcl & _).
    apply normalization_Ok in Hslog as [-> _].
    destruct (proj1 (other_returns_iff order cats reference Hord))
      as (c & Hin & Hne); [by exists other|].
    split_and!; [by exists cats, c|done|].
    intros Hnil. rewrite Hnil in Hcl. by vm_compute in Hcl.
  - intros ((cats & c & Hc & Hin & Hne) & -> & Hobs).
    destruct (proj2 (other_returns_iff order cats reference Hord))
      as [other Ho]; [by exists c|].
    destruct (resolve_reference_returns cats reference c Hin) as [r Hr].
    destruct (np_log_inverse_Ok _ Hobs) as [cl Hcl].
    unfold DESeq2_init. cbv zeta.
    rewrite (bind_Ok _ _ _ Hc), (bind_Ok _ _ _ Ho), (bind_Ok _ _ _ Hr).
    rewrite (bind_Ok _ _ _ (normalization_depth table)), (bind_Ok _ _ _ Hcl).
    by eexists.
Qed.

Lemma DESeq2_returns_iff_witness :
  ∃ m, DESeq2_init elements diagonal_table case_control_metadata "Status"
         None "depth" = Ok m.
Proof.
  apply (DESeq2_returns_iff elements diagonal_table case_control_metadata
           "Status" None "depth").
  - intros s. reflexivity.
  - split.
    + exists ["Healthy"; "Sick"], "Healthy".
      split; [reflexivity|]. split; [left|discriminate].
    + split; [reflexivity|discriminate].
Defined.

(** X14. When every sample's category is the supplied reference label (in
    particular when the metadata has no rows) both two-group constructors
    raise [IndexError], whatever the normalisation mode: no label is left
    for the second group. *)
Theorem two_group_one_category_IndexError
    order table feature_id metadata category_column reference normalization cats :
  set_order_ok order →
  df_getitem metadata category_column = Ok cats →
  (∀ c, c ∈ cats → reference = Some c) →
  DESeq2_init order table metadata category_column reference normalization
  = Raise IndexError
  ∧ (feature_id ∈ observation_ids table →
     SingleDESeq2_init order table feature_id metadata category_column
       reference normalization = Raise IndexError).
Proof.
  intros Hord Hc Hall.
  assert (first (order (list_to_set cats ∖ singleton_of reference))
          = Raise IndexError) as Ho.
  { destruct (first _) as [o|e] eqn:E.
    - destruct (proj1 (other_returns_iff order cats reference Hord))
        as (c & Hin & Hne); [by exists o|]. by destruct Hne, (Hall c Hin).
    - by apply first_Raise in E as [-> _]. }
  split.
  - unfold DESeq2_init. cbv zeta.
    by rewrite (bind_Ok _ _ _ Hc), (bind_Raise _ _ _ Ho).
  - intros Hf. unfold SingleDESeq2_init, SingleFeatureModel_init. cbv zeta.
    rewrite decide_True by done. rewrite (bind_Ok _ _ _ eq_refl).
    by rewrite (bind_Ok _ _ _ Hc), (bind_Raise _ _ _ Ho).
Qed.

Lemma two_group_one_category_IndexError_witness :
  DESeq2_init elements diagonal_table one_group_metadata "Status"
    (Some "Healthy") "depth" = Raise IndexError.
Proof.
  refine (proj1 (two_group_one_category_IndexError elements diagonal_table
                   "f1" one_group_metadata "Status" (Some "Healthy") "depth"
                   ["Healthy"; "Healthy"] _ eq_refl _)).
  - intros s. reflexivity.
  - intros c Hc.
    apply elem_of_cons in Hc as [->|Hc]; [reflexivity|].
    apply elem_of_cons in Hc as [->|Hc]; [reflexivity|].
    apply elem_of_nil in Hc. destruct Hc.
Defined.

(** X15. The iteration order of the set reaches nothing but the second
    label of the [groups] axis: two bindings of [DESeq2] on the same
    arguments carry the same data dictionary, parameters, dimensions and
    all other coordinates. *)
Theorem DESeq2_set_order_only_in_groups
    order1 order2 table metadata category_column reference normalization m1 m2 :
  DESeq2_init order1 table metadata category_column reference normalization
  = Ok m1 →
  DESeq2_init order2 table metadata category_column reference normalization
  = Ok m2 →
  dat m1 = dat m2
  ∧ ∃ s1 s2,
      spec m1 = Some s1 ∧ spec m2 = Some s2
      ∧ params s1 = params s2
      ∧ dims s1 = dims s2
      ∧ head <$> coords s1 !! "groups" = head <$> coords s2 !! "groups"
      ∧ ∀ axis, axis ≠ "groups" → coords s1 !! axis = coords s2 !! axis.
Proof.
  intros H1 H2.
  apply DESeq2_init_steps in H1
    as (cats & o1 & r & slog & cl & Hc & _ & Hr & Hslog & Hcl & ->).
  apply DESeq2_init_steps in H2
    as (cats' & o2 & r' & slog' & cl' & Hc' & _ & Hr' & Hslog' & Hcl' & ->).
  assert (cats' = cats) as -> by congruence.
  assert (r' = r) as -> by congruence.
  assert (slog' = slog) as -> by congruence.
  assert (cl' = cl) as -> by congruence.
  split; [reflexivity|].
  eexists _, _. split_and!; [reflexivity..|].
  intros axis Hne. simpl. by rewrite !(lookup_insert_ne _ "groups") by done.
Qed.

Lemma DESeq2_set_order_only_in_groups_witness :
  ∃ m1 m2,
    DESeq2_init elements diagonal_table reversed_metadata "Status" None
      "depth" = Ok m1
    ∧ DESeq2_init (reverse ∘ elements) diagonal_table reversed_metadata
        "Status" None "depth" = Ok m2
    ∧ dat m1 = dat m2.
Proof.
  destruct (DESeq2_init elements diagonal_table reversed_metadata "Status"
              None "depth") as [m1|e] eqn:E1;
    [|vm_compute in E1; discriminate E1].
  destruct (DESeq2_init (reverse ∘ elements) diagonal_table reversed_metadata
              "Status" None "depth") as [m2|e] eqn:E2;
    [|vm_compute in E2; discriminate E2].
  destruct (DESeq2_set_order_only_in_groups _ _ _ _ _ _ _ m1 m2 E1 E2)
    as [Hdat _].
  exists m1, m2. split; [reflexivity|]. split; [reflexivity|exact Hdat].
Defined.

(** X16. Under every iteration order of the set, [SingleDESeq2] returns
    exactly when its feature is in the table and [DESeq2] returns on the
    same arguments; the two models then carry the same [M], [slog] and
    [control_loc]. *)
Theorem SingleDESeq2_returns_iff
    order table feature_id metadata category_column reference normalization :
  set_order_ok order →
  ((∃ m, SingleDESeq2_init order table feature_id metadata category_column
           reference normalization = Ok m)
   ↔ feature_id ∈ observation_ids table
     ∧ ∃ m', DESeq2_init order table metadata category_column reference
               normalization = Ok m')
  ∧ ∀ m m',
      SingleDESeq2_init order table feature_id metadata category_column
        reference normalization = Ok m →
      DESeq2_init order table metadata category_column reference
        normalization = Ok m' →
      dat m !! "M" = dat m' !! "M"
      ∧ dat m !! "slog" = dat m' !! "slog"
      ∧ dat m !! "control_loc" = dat m' !! "control_loc".
Proof.
  intros Hord. split; [split|].
  - intros [m H]. apply SingleDESeq2_init_steps in H
      as (cats & other & r & code & slog & cl & Hf & Hc & Ho & Hr & _ & Hslog
          & Hcl & _).
    split; [done|]. unfold DESeq2_init. cbv zeta.
    rewrite (bind_Ok _ _ _ Hc), (bind_Ok _ _ _ Ho), (bind_Ok _ _ _ Hr).
    rewrite (bind_Ok _ _ _ Hslog), (bind_Ok _ _ _ Hcl). by eexists.
  - intros (Hf & m' & H). apply DESeq2_init_steps in H
      as (cats & other & r & slog & cl & Hc & Ho & Hr & Hslog & Hcl & _).
    destruct (code_returns cats r) as [code Hcode].
    { intros ->.
      destruct (proj1 (other_returns_iff order [] reference Hord))
        as (c & Hin & _); [by exists other|]. by apply elem_of_nil in Hin. }
    unfold SingleDESeq2_init, SingleFeatureModel_init. cbv zeta.
    rewrite decide_True by done. rewrite (bind_Ok _ _ _ eq_refl).
    rewrite (bind_Ok _ _ _ Hc), (bind_Ok _ _ _ Ho), (bind_Ok _ _ _ Hr).
    rewrite (bind_Ok _ _ _ Hcode).
    rewrite (bind_Ok _ _ _ Hslog), (bind_Ok _ _ _ Hcl). by eexists.
  - intros m m' H H'.
    apply SingleDESeq2_init_steps in H
      as (cats & other & r & code & slog & cl & _ & Hc & _ & Hr & _ & Hslog
          & Hcl & -> & -> & -> & _).
    apply DESeq2_init_steps in H'
      as (cats' & other' & r' & slog' & cl' & Hc' & _ & Hr' & Hslog' & Hcl'
          & ->).
    assert (cats' = cats) as -> by congruence.
    assert (r' = r) as -> by congruence.
    assert (slog' = slog) as -> by congruence.
    assert (cl' = cl) as -> by congruence.
    split_and!; reflexivity.
Qed.

Lemma SingleDESeq2_returns_iff_witness :
  ∃ m', DESeq2_init elements diagonal_table case_control_metadata "Status"
          (Some "Healthy") "depth" = Ok m'.
Proof.
  destruct (SingleDESeq2_returns_iff elements diagonal_table "f1"
              case_control_metadata "Status" (Some "Healthy") "depth")
    as [[Hto _] _].
  - intros s. reflexivity.
  - apply Hto.
    destruct (SingleDESeq2_init elements diagonal_table "f1"
                case_control_metadata "Status" (Some "Healthy") "depth")
      as [m|e] eqn:E; [|vm_compute in E; discriminate E].
    exists m. reflexivity.
Defined.

(** ** The prior location *)




